(** * videojs-hls-quality-selector: the plugin class of src/plugin.js

    A shallow embedding of [HlsQualitySelectorPlugin] and the properties of
    its rendition catalog, menu synchronizer and selection applier.

    The plugin object is a record threaded through every method.  Methods
    that can raise a JavaScript [TypeError] live in a small state-and-error
    monad; [console.log] calls have no effect on the plugin and are left
    out. *)

From Stdlib Require Import Ascii.
From stdpp Require Import base strings gmap list pretty sorting.

Local Open Scope Z_scope.

(** ** JavaScript values *)

Module JS.

(** The primitive values that flow through the plugin: [undefined],
    integer numbers and strings. *)
Inductive jsval :=
| VUndef
| VNum (n : Z)
| VStr (s : string).

#[global] Instance jsval_eq_dec : EqDecision jsval.
Proof. solve_decision. Defined.

(** An optional integer property of an object: [None] is [undefined]. *)
Definition of_field (o : option Z) : jsval :=
  match o with
  | Some n => VNum n
  | None => VUndef
  end.

Definition of_name (o : option string) : jsval :=
  match o with
  | Some s => VStr s
  | None => VUndef
  end.

(** [ToBoolean]. *)
Definition truthy (v : jsval) : bool :=
  match v with
  | VUndef => false
  | VNum n => negb (n =? 0)
  | VStr s => negb (String.eqb s "")
  end.

(** [a || b]. *)
Definition logical_or (a b : jsval) : jsval := if truthy a then a else b.

(** [ToString]; integers print in decimal. *)
Definition toString (v : jsval) : string :=
  match v with
  | VUndef => "undefined"
  | VNum n => pretty n
  | VStr s => s
  end.

(** [a === b]. *)
Definition strict_eq (a b : jsval) : bool := bool_decide (a = b).

Definition digit_of (c : Ascii.ascii) : option N :=
  let n := Ascii.N_of_ascii c in
  if ((48 <=? n) && (n <=? 57))%N then Some (n - 48)%N else None.

Fixpoint parse_digits (s : string) (acc : N) : option N :=
  match s with
  | EmptyString => Some acc
  | String c s' =>
      match digit_of c with
      | Some d => parse_digits s' (10 * acc + d)%N
      | None => None
      end
  end.

(** [ToNumber] on the values above; [None] is [NaN].  A string converts
    when it is empty or a decimal integer with an optional sign. *)
Definition ToNumber (v : jsval) : option Z :=
  match v with
  | VUndef => None
  | VNum n => Some n
  | VStr EmptyString => Some 0
  | VStr (String c (String _ _ as s') as s) =>
      if Ascii.eqb c "-"%char then (λ n, - Z.of_N n) <$> parse_digits s' 0
      else if Ascii.eqb c "+"%char then Z.of_N <$> parse_digits s' 0
      else Z.of_N <$> parse_digits s 0
  | VStr s => Z.of_N <$> parse_digits s 0
  end.

(** [a < b]: two strings compare by code units, anything else after
    [ToNumber], and a comparison with [NaN] is false. *)
Definition less (a b : jsval) : bool :=
  match a, b with
  | VStr s, VStr t => String.ltb s t
  | _, _ =>
      match ToNumber a, ToNumber b with
      | Some x, Some y => x <? y
      | _, _ => false
      end
  end.

(** [a > b]. *)
Definition greater (a b : jsval) : bool := less b a.

(** A property key is an array index when it is the canonical decimal
    form of an integer below [2^32 - 1]. *)
Definition array_index (k : string) : option N :=
  match k with
  | EmptyString => None
  | _ =>
      n ← parse_digits k 0;
      if bool_decide (pretty n = k) && (n <? 4294967295)%N then Some n else None
  end.

(** An ordinary object used as a dictionary: its own properties in
    creation order. *)
Definition object (V : Type) := list (string * V).

Definition get {V} (o : object V) (k : string) : option V :=
  snd <$> find (λ kv, String.eqb (fst kv) k) o.

(** [o[k] = v]: an existing property keeps its place. *)
Fixpoint set {V} (o : object V) (k : string) (v : V) : object V :=
  match o with
  | [] => [(k, v)]
  | (k', v') :: o' =>
      if String.eqb k' k then (k', v) :: o' else (k', v') :: set o' k v
  end.

(** [Object.keys(o)]: array indices in ascending order, then the other
    keys in creation order. *)
Definition keys {V} (o : object V) : list string :=
  (pretty <$> merge_sort N.le (omap (λ kv, array_index (fst kv)) o))
  ++ filter (λ k, array_index k = None) (fst <$> o).

(** [Array.prototype.sort(comparefn)] on a list of objects.  The sort is
    stable, and with a consistent comparator its result is the one list
    that is ordered by the comparator and keeps equal elements in their
    original order; it is computed here by insertion, [x] going before [y]
    unless [comparefn(x, y) > 0].  With a comparator that is not consistent
    the language leaves the order to the engine: the result below is then
    a permutation of the input, and an engine may give another one. *)
Fixpoint sort_insert {A} (comparefn : A → A → Z) (x : A) (l : list A) : list A :=
  match l with
  | [] => [x]
  | y :: l' =>
      if comparefn x y <=? 0 then x :: y :: l' else y :: sort_insert comparefn x l'
  end.

Fixpoint sort {A} (comparefn : A → A → Z) (l : list A) : list A :=
  match l with
  | [] => []
  | x :: l' => sort_insert comparefn x (sort comparefn l')
  end.

End JS.

Import JS.

(** ** Data model *)

(** An element of the engine's quality-level list, which is an object.
    [width], [height] and [bandwidth] are integers when present. *)
Record Rendition := {
  width : option Z;
  height : option Z;
  bandwidth : option Z;
  enabled : bool
}.

(** The [attributes] property of a manifest rendition description:
    something that is not an object (absent, or a primitive), [null], or an
    object whose [NAME] and [BANDWIDTH] may be absent. *)
Inductive attributes_val :=
| AttrsNotObject
| AttrsNull
| AttrsObject (NAME : option string) (BANDWIDTH : option Z).

(** An element of the manifest's rendition description list. *)
Inductive description :=
| DescNotObject
| DescNull
| DescObject (attributes : attributes_val).

(** The [playlists] property of the streaming tech: absent, a flat list of
    descriptions, or a loader whose [master] manifest holds the list.  The
    [master] of a loader is taken to be a manifest object; a loader whose
    [master] is [null], on which [getMasterPlaylists] throws at
    [master.playlists], is not among these values. *)
Inductive playlists_val :=
| PlaylistsUndefined
| PlaylistsFlat (l : list description)
| PlaylistsMaster (master_playlists : option (list description)).

(** The options object handed to a menu item. *)
Record Item := {
  label : jsval;
  value : jsval;
  selected : option bool
}.

(** Modelled from the spec: ConcreteMenuItem.js is not among the sources.
    The widget keeps the options object it was built from in [item], which
    is what the sort comparator of [onAddQualityLevel] reads. *)
Record ConcreteMenuItem := { item : Item }.

(** Modelled from the spec: ConcreteButton.js is not among the sources.
    The button has the text of its icon placeholder, the item-construction
    function installed by the plugin (a constant function, kept as the list
    it returns) and a pressed state that [unpressButton] clears. *)
Record ConcreteButton := {
  innerHTML : option string;
  createItems : list ConcreteMenuItem;
  pressed : bool
}.

(** The plugin options; [vjsIconClass] and [placementIndex] only style and
    place the button. *)
Record Config := { displayCurrentQuality : bool }.

Record Player := {
  playlists : playlists_val;
  qualityLevels : list Rendition;
  localize : string → string
}.

(** The plugin object of an activated plugin: the constructor has created
    the button and subscribed [onAddQualityLevel]. *)
Record HlsQualitySelectorPlugin := {
  player : Player;
  config : Config;
  bandwidthToNameMap : option (gmap string (option string));
  _qualityButton : ConcreteButton;
  _currentQuality : jsval
}.

Definition set_bandwidthToNameMap (m : gmap string (option string))
    (this : HlsQualitySelectorPlugin) : HlsQualitySelectorPlugin :=
  {| player := player this; config := config this;
     bandwidthToNameMap := Some m;
     _qualityButton := _qualityButton this;
     _currentQuality := _currentQuality this |}.

Definition set_qualityButton (b : ConcreteButton)
    (this : HlsQualitySelectorPlugin) : HlsQualitySelectorPlugin :=
  {| player := player this; config := config this;
     bandwidthToNameMap := bandwidthToNameMap this;
     _qualityButton := b;
     _currentQuality := _currentQuality this |}.

Definition set_currentQuality (q : jsval)
    (this : HlsQualitySelectorPlugin) : HlsQualitySelectorPlugin :=
  {| player := player this; config := config this;
     bandwidthToNameMap := bandwidthToNameMap this;
     _qualityButton := _qualityButton this;
     _currentQuality := q |}.

Definition set_qualityLevels (l : list Rendition)
    (this : HlsQualitySelectorPlugin) : HlsQualitySelectorPlugin :=
  {| player := {| playlists := playlists (player this);
                  qualityLevels := l;
                  localize := localize (player this) |};
     config := config this;
     bandwidthToNameMap := bandwidthToNameMap this;
     _qualityButton := _qualityButton this;
     _currentQuality := _currentQuality this |}.

(** ** Methods that may throw *)

Inductive error := TypeError.

Definition M (A : Type) : Type :=
  HlsQualitySelectorPlugin → error + A * HlsQualitySelectorPlugin.

#[global] Instance M_ret : MRet M := λ A a this, inr (a, this).

#[global] Instance M_bind : MBind M := λ A B f c this,
  match c this with
  | inl e => inl e
  | inr (a, this') => f a this'
  end.

(** The value a method returns, when it returns. *)
Definition returned {A} (r : error + A * HlsQualitySelectorPlugin) : option A :=
  match r with
  | inl _ => None
  | inr (a, _) => Some a
  end.

(** The plugin a method leaves behind, when it returns. *)
Definition final {A} (r : error + A * HlsQualitySelectorPlugin)
    : option HlsQualitySelectorPlugin :=
  match r with
  | inl _ => None
  | inr (_, this) => Some this
  end.

(** [Array.prototype.reduce] with a callback that may throw. *)
Fixpoint reduce {A B} (callback : B → A → error + B) (l : list A) (acc : B)
    : error + B :=
  match l with
  | [] => inr acc
  | x :: l' =>
      match callback acc x with
      | inl e => inl e
      | inr acc' => reduce callback l' acc'
      end
  end.

(** ** Rendition catalog *)

Definition getMasterPlaylists (this : HlsQualitySelectorPlugin)
    : list description :=
  match playlists (player this) with
  | PlaylistsMaster master_playlists => default [] master_playlists
  | PlaylistsFlat l => l
  | PlaylistsUndefined => []
  end.

(** The callback of the [reduce] in [getBandwidthToNameMap].  [typeof null]
    is ["object"], so reading a property of a [null] description, or
    destructuring [null] attributes, throws. *)
Definition bandwidthToName_step (acc : gmap string (option string))
    (playlist : description) : error + gmap string (option string) :=
  match playlist with
  | DescNotObject => inr acc
  | DescNull => inl TypeError
  | DescObject AttrsNotObject => inr acc
  | DescObject AttrsNull => inl TypeError
  | DescObject (AttrsObject NAME BANDWIDTH) =>
      inr (<[toString (of_field BANDWIDTH) := NAME]> acc)
  end.

Definition getBandwidthToNameMap : M (gmap string (option string)) :=
  λ this,
    match bandwidthToNameMap this with
    | Some m => inr (m, this)
    | None =>
        match reduce bandwidthToName_step (getMasterPlaylists this) ∅ with
        | inl e => inl e
        | inr m => inr (m, set_bandwidthToNameMap m this)
        end
    end.

(** [map[key]] on the catalog: a missing key reads as [undefined]. *)
Definition lookup_name (m : gmap string (option string)) (key : jsval) : jsval :=
  of_name (default None (m !! toString key)).

(** ** Menu synchronizer *)

Definition getQualityMenuItem (item : Item) : ConcreteMenuItem :=
  {| item := item |}.

(** [width > height ? height : width], as computed by [getQualityMeta] and
    by [setQuality].  A comparison with [undefined] is false, so a missing
    height leaves the width. *)
Definition pixels (width height : option Z) : option Z :=
  if greater (of_field width) (of_field height) then height else width.

Definition getQualityMeta (item : Rendition) : M Item :=
  if negb (truthy (of_field (width item))) || negb (truthy (of_field (height item)))
  then
    names ← getBandwidthToNameMap;
    let key :=
      if truthy (of_field (bandwidth item))
      then VStr (toString (of_field (bandwidth item)))
      else VUndef in
    mret {| label := lookup_name names key;
            value := of_field (bandwidth item);
            selected := None |}
  else
    mret {| label := VStr (toString (of_field (pixels (width item) (height item))) +:+ "p");
            value := of_field (bandwidth item);
            selected := None |}.

(** The loop of [getLevelItems]: [items] is keyed by the string form of
    each value, and a key that is already there is left alone. *)
Fixpoint getLevelItems_loop (levels : list Rendition)
    (items : object ConcreteMenuItem) : M (object ConcreteMenuItem) :=
  match levels with
  | [] => mret items
  | level :: levels' =>
      meta ← getQualityMeta level;
      getLevelItems_loop levels'
        match get items (toString (value meta)) with
        | Some _ => items
        | None =>
            set items (toString (value meta))
              (getQualityMenuItem
                 {| label := label meta; value := value meta; selected := None |})
        end
  end.

(** Every key of [keys items] is a property of [items], so the final
    [map] reads one entry per key. *)
Definition getLevelItems (levels : list Rendition) : M (list ConcreteMenuItem) :=
  items ← getLevelItems_loop levels [];
  mret (omap (get items) (keys items)).

(** The comparator of [onAddQualityLevel].  Both arguments are menu item
    objects, so its [typeof] guard never fires. *)
Definition compareItems (current next : ConcreteMenuItem) : Z :=
  if less (value (item current)) (value (item next)) then -1
  else if greater (value (item current)) (value (item next)) then 1
  else 0.

Definition autoItem (this : HlsQualitySelectorPlugin) : ConcreteMenuItem :=
  getQualityMenuItem
    {| label := VStr (localize (player this) "Auto");
       value := VStr "auto";
       selected := Some true |}.

Definition onAddQualityLevel : M unit :=
  λ this,
    match getLevelItems (qualityLevels (player this)) this with
    | inl e => inl e
    | inr (levelItems, this') =>
        let levelItems := sort compareItems levelItems ++ [autoItem this'] in
        inr (tt, set_qualityButton
                   {| innerHTML := innerHTML (_qualityButton this');
                      createItems := levelItems;
                      pressed := pressed (_qualityButton this') |} this')
    end.

(** ** Selection applier *)

Definition setButtonInnerText (text : string)
    (this : HlsQualitySelectorPlugin) : HlsQualitySelectorPlugin :=
  set_qualityButton
    {| innerHTML := Some text;
       createItems := createItems (_qualityButton this);
       pressed := pressed (_qualityButton this) |} this.

Definition unpressButton (this : HlsQualitySelectorPlugin)
    : HlsQualitySelectorPlugin :=
  set_qualityButton
    {| innerHTML := innerHTML (_qualityButton this);
       createItems := createItems (_qualityButton this);
       pressed := false |} this.

(** The body of the loop of [setQuality] on one rendition. *)
Definition setEnabled (quality : jsval) (level : Rendition) : Rendition :=
  {| width := width level;
     height := height level;
     bandwidth := bandwidth level;
     enabled :=
       strict_eq (of_field (pixels (width level) (height level))) quality
       || strict_eq quality (VStr "auto") |}.

Definition setQuality (quality : jsval)
    (this : HlsQualitySelectorPlugin) : HlsQualitySelectorPlugin :=
  let this := set_currentQuality quality this in
  let this :=
    if displayCurrentQuality (config this)
    then setButtonInnerText
           (if strict_eq quality (VStr "auto") then toString quality
            else toString quality +:+ "p") this
    else this in
  let this :=
    set_qualityLevels (setEnabled quality <$> qualityLevels (player this)) this in
  unpressButton this.

Definition getCurrentQuality (this : HlsQualitySelectorPlugin) : jsval :=
  logical_or (_currentQuality this) (VStr "auto").

(** ** Construction *)

Definition createQualityButton (this : HlsQualitySelectorPlugin)
    : HlsQualitySelectorPlugin :=
  let this :=
    set_qualityButton {| innerHTML := None; createItems := []; pressed := false |} this in
  if displayCurrentQuality (config this)
  then setButtonInnerText "auto" this
  else this.

(** The constructor on a player that has the quality-level list and a
    streaming tech; [_currentQuality] is not assigned. *)
Definition constructor (player : Player) (options : Config)
    : HlsQualitySelectorPlugin :=
  createQualityButton
    {| player := player;
       config := options;
       bandwidthToNameMap := None;
       _qualityButton := {| innerHTML := None; createItems := []; pressed := false |};
       _currentQuality := VUndef |}.

(** ** Predicates used in the statements *)

(** A description on which the callback of the catalog does not throw. *)
Definition wellformed (playlist : description) : bool :=
  match playlist with
  | DescNull | DescObject AttrsNull => false
  | _ => true
  end.

(** A description the guard of the callback rejects. *)
Definition without_attributes (playlist : description) : bool :=
  match playlist with
  | DescNotObject | DescObject AttrsNotObject => true
  | _ => false
  end.

(** The catalog is cached already, or the manifest it will be built from
    has no [null] where an object is read. *)
Definition catalog_available (this : HlsQualitySelectorPlugin) : Prop :=
  is_Some (bandwidthToNameMap this)
  ∨ forallb wellformed (getMasterPlaylists this) = true.

(** What a method may change besides the catalog cache: nothing. *)
Definition same_but_catalog (this this' : HlsQualitySelectorPlugin) : Prop :=
  player this' = player this
  ∧ config this' = config this
  ∧ _qualityButton this' = _qualityButton this
  ∧ _currentQuality this' = _currentQuality this.


(** ** Sample data *)

Definition rendition (width height bandwidth : option Z) : Rendition :=
  {| width := width; height := height; bandwidth := bandwidth; enabled := false |}.

(** A master manifest with one named variant, and three renditions with
    geometry. *)
Definition sample_player : Player :=
  {| playlists :=
       PlaylistsMaster (Some [DescObject (AttrsObject (Some "720p") (Some 2000000))]);
     qualityLevels :=
       [rendition (Some 960) (Some 540) (Some 1500000);
        rendition (Some 640) (Some 360) (Some 800000);
        rendition (Some 1920) (Some 1080) (Some 5000000)];
     localize := λ s, s |}.

Definition sample_plugin : HlsQualitySelectorPlugin :=
  constructor sample_player {| displayCurrentQuality := true |}.

(** A plugin just constructed on a flat manifest [l]. *)
Definition plugin_of_manifest (l : list description) : HlsQualitySelectorPlugin :=
  constructor
    {| playlists := PlaylistsFlat l; qualityLevels := []; localize := λ s, s |}
    {| displayCurrentQuality := false |}.

(** A menu entry that stands for one of [levels]: its value is the
    bandwidth of that rendition. *)
Definition from_levels (levels : list Rendition) (entry : ConcreteMenuItem) : Prop :=
  ∃ level, level ∈ levels ∧ value (item entry) = of_field (bandwidth level).

(** A menu entry whose value is a number. *)
Definition numeric (entry : ConcreteMenuItem) : Prop :=
  ∃ n, value (item entry) = VNum n.

(** What the loop of [getLevelItems] maintains once it has gone through
    [levels]: one property per distinct value, keyed by the string form of
    that value. *)
Definition items_of (levels : list Rendition)
    (items : object ConcreteMenuItem) : Prop :=
  NoDup items.*1
  ∧ (∀ k entry, (k, entry) ∈ items → k = toString (value (item entry)))
  ∧ (∀ v, v ∈ (λ entry, value (item entry)) <$> items.*2
          ↔ v ∈ (λ level, of_field (bandwidth level)) <$> levels).

(** The plugin objects on which [setQuality] has not been called: fresh
    from the constructor, after the engine has changed its rendition list,
    after a rendition-discovery event. *)
Inductive never_selected : HlsQualitySelectorPlugin → Prop :=
| never_selected_new player options :
    never_selected (constructor player options)
| never_selected_engine this levels :
    never_selected this → never_selected (set_qualityLevels levels this)
| never_selected_discovery this this' :
    never_selected this →
    onAddQualityLevel this = inr (tt, this') →
    never_selected this'.

(** ** The plugin among its callers *)

(** The streaming tech replaces its playlists (a new manifest). *)
Definition set_playlists (pl : playlists_val)
    (this : HlsQualitySelectorPlugin) : HlsQualitySelectorPlugin :=
  {| player := {| playlists := pl;
                  qualityLevels := qualityLevels (player this);
                  localize := localize (player this) |};
     config := config this;
     bandwidthToNameMap := bandwidthToNameMap this;
     _qualityButton := _qualityButton this;
     _currentQuality := _currentQuality this |}.

(** What happens to an activated plugin: the engine's list has become
    [levels] and the "addqualitylevel" event, to which [bindPlayerEvents]
    subscribed [onAddQualityLevel], fires; a caller invokes [setQuality];
    the streaming tech gets new playlists. *)
Inductive event :=
| addqualitylevel (levels : list Rendition)
| select (quality : jsval)
| manifest (pl : playlists_val).

Definition handle (e : event) : M unit :=
  λ this,
    match e with
    | addqualitylevel levels => onAddQualityLevel (set_qualityLevels levels this)
    | select quality => inr (tt, setQuality quality this)
    | manifest pl => inr (tt, set_playlists pl this)
    end.

Fixpoint run (events : list event) : M unit :=
  match events with
  | [] => mret tt
  | e :: events' => _ ← handle e; run events'
  end.

(** ** Predicates used in the further statements *)

(** The guard of [getQualityMeta]: the rendition has no usable geometry. *)
Definition falsy_geometry (item : Rendition) : bool :=
  negb (truthy (of_field (width item))) || negb (truthy (of_field (height item))).

(** The plugin once its catalog is in place: as it is when the catalog is
    cached or cannot be built, with the cache filled otherwise. *)
Definition with_catalog (this : HlsQualitySelectorPlugin)
    : HlsQualitySelectorPlugin :=
  match getBandwidthToNameMap this with
  | inr (_, this') => this'
  | inl _ => this
  end.

(** A result whose final plugin went through [f]. *)
Definition lift_state {A} (f : HlsQualitySelectorPlugin → HlsQualitySelectorPlugin)
    (r : error + A * HlsQualitySelectorPlugin) : error + A * HlsQualitySelectorPlugin :=
  match r with
  | inl e => inl e
  | inr (a, this) => inr (a, f this)
  end.

(** A description that writes [NAME] under the key of [BANDWIDTH]. *)
Definition writes (key : string) (playlist : description) : Prop :=
  ∃ NAME BANDWIDTH,
    playlist = DescObject (AttrsObject NAME BANDWIDTH)
    ∧ key = toString (of_field BANDWIDTH).

(** The catalog key under which [getQualityMeta] looks a rendition up: the
    decimal form of its bandwidth, "undefined" for a missing or zero
    bandwidth. *)
Definition catalog_key (item : Rendition) : string :=
  match bandwidth item with
  | Some b => if b =? 0 then "undefined" else pretty b
  | None => "undefined"
  end.

(** Every property of [items] was made from the first of the renditions
    [seen] that has its bandwidth, with the label and value that
    [getQualityMeta] gives that rendition on the plugin [this]. *)
Definition first_of (this : HlsQualitySelectorPlugin) (seen : list Rendition)
    (items : object ConcreteMenuItem) : Prop :=
  ∀ k entry,
    (k, entry) ∈ items →
    ∃ (i : nat) level,
      seen !! i = Some level
      ∧ (∀ (j : nat) level',
           (j < i)%nat → seen !! j = Some level' →
           bandwidth level' ≠ bandwidth level)
      ∧ returned (getQualityMeta level this) = Some (item entry).

(** The quality of the last [select] among [events], if there is one. *)
Fixpoint last_selected (events : list event) : option jsval :=
  match events with
  | [] => None
  | e :: events' =>
      match last_selected events' with
      | Some quality => Some quality
      | None =>
          match e with
          | select quality => Some quality
          | _ => None
          end
      end
  end.


(** Whether a rendition-discovery event is among [events]. *)
Definition discovered (events : list event) : bool :=
  existsb (λ e, match e with addqualitylevel _ => true | _ => false end) events.

(** An entry list that ends with the entry [auto], its only entry of value
    "auto". *)
Definition ends_with_auto (auto : ConcreteMenuItem)
    (entries : list ConcreteMenuItem) : Prop :=
  last entries = Some auto
  ∧ filter (λ entry, value (item entry) = VStr "auto") entries = [auto].
(** * Properties *)

(** ** [Array.prototype.sort] *)

Section sort_correct.
Context {A : Type} (comparefn : A → A → Z).

Lemma sort_insert_Permutation x l : sort_insert comparefn x l ≡ₚ x :: l.
Proof.
  induction l as [|y l IH]; simpl; [done|].
  destruct (comparefn x y <=? 0); [done|].
  by rewrite IH, Permutation_swap.
Qed.

Lemma sort_Permutation l : sort comparefn l ≡ₚ l.
Proof.
  induction l as [|x l IH]; simpl; [done|].
  by rewrite sort_insert_Permutation, IH.
Qed.

(** On a class [P] of elements where the comparator is a consistent
    one (total and transitive), the result is ordered by it. *)
Context (P : A → Prop).
Hypothesis comparefn_total :
  ∀ x y, P x → P y → 0 < comparefn x y → comparefn y x ≤ 0.
Hypothesis comparefn_trans :
  ∀ x y z, P x → P y → P z →
    comparefn x y ≤ 0 → comparefn y z ≤ 0 → comparefn x z ≤ 0.

Lemma sort_insert_StronglySorted x l :
  P x → Forall P l →
  StronglySorted (λ x y, comparefn x y ≤ 0) l →
  StronglySorted (λ x y, comparefn x y ≤ 0) (sort_insert comparefn x l).
Proof.
  intros Hx HP Hl. induction Hl as [|y l Hl IH Hy]; simpl.
  - repeat constructor.
  - apply Forall_cons in HP as [HPy HP].
    destruct (Z.leb_spec (comparefn x y) 0) as [Hle|Hgt].
    + constructor; [by constructor|].
      constructor; [exact Hle|].
      rewrite Forall_forall in Hy, HP. apply Forall_forall.
      intros z Hz. apply (comparefn_trans x y z); auto.
    + constructor; [by apply IH|].
      rewrite sort_insert_Permutation. constructor; [|done].
      by apply comparefn_total.
Qed.

Lemma sort_StronglySorted l :
  Forall P l → StronglySorted (λ x y, comparefn x y ≤ 0) (sort comparefn l).
Proof.
  induction 1 as [|x l Hx HP IH]; simpl; [constructor|].
  apply sort_insert_StronglySorted; [done| |done].
  by rewrite sort_Permutation.
Qed.
End sort_correct.

(** ** Rendition catalog *)

Lemma same_but_catalog_refl this : same_but_catalog this this.
Proof. by repeat split. Qed.

Lemma same_but_catalog_trans this1 this2 this3 :
  same_but_catalog this1 this2 → same_but_catalog this2 this3 →
  same_but_catalog this1 this3.
Proof.
  intros (?&?&?&?) (?&?&?&?). repeat split; congruence.
Qed.

Lemma reduce_app {A B} (callback : B → A → error + B) l1 l2 acc :
  reduce callback (l1 ++ l2) acc =
  match reduce callback l1 acc with
  | inl e => inl e
  | inr acc' => reduce callback l2 acc'
  end.
Proof.
  revert acc. induction l1 as [|x l1 IH]; intros acc; simpl; [done|].
  destruct (callback acc x); [done|]. apply IH.
Qed.

Lemma reduce_wellformed l acc :
  forallb wellformed l = true →
  ∃ names, reduce bandwidthToName_step l acc = inr names.
Proof.
  revert acc. induction l as [|playlist l IH]; intros acc Hl; simpl.
  - by eexists.
  - simpl in Hl. apply andb_true_iff in Hl as [Hp Hl].
    destruct playlist as [| |[| |NAME BANDWIDTH]]; simplify_eq/=; by apply IH.
Qed.

Lemma getBandwidthToNameMap_returns this :
  catalog_available this →
  ∃ names this',
    getBandwidthToNameMap this = inr (names, this')
    ∧ bandwidthToNameMap this' = Some names
    ∧ same_but_catalog this this'.
Proof.
  intros Hthis. unfold getBandwidthToNameMap.
  destruct (bandwidthToNameMap this) as [names|] eqn:Hcache.
  - exists names, this. auto using same_but_catalog_refl.
  - destruct Hthis as [[? ?]|Hwf]; [congruence|].
    destruct (reduce_wellformed _ ∅ Hwf) as [names ->].
    exists names, (set_bandwidthToNameMap names this).
    split_and!; [done..|]. by repeat split.
Qed.

Lemma bandwidthToName_step_skip acc playlist :
  without_attributes playlist = true →
  bandwidthToName_step acc playlist = inr acc.
Proof. by destruct playlist as [| |[| |NAME BANDWIDTH]]. Qed.

Lemma reduce_skip before playlist after acc :
  without_attributes playlist = true →
  reduce bandwidthToName_step (before ++ playlist :: after) acc
  = reduce bandwidthToName_step (before ++ after) acc.
Proof.
  intros Hskip. rewrite !reduce_app.
  destruct (reduce bandwidthToName_step before acc) as [|acc']; [done|].
  simpl. by rewrite bandwidthToName_step_skip.
Qed.

(** C7, as amended: a description that is not an object, or whose
    [attributes] is not an object, is skipped: the callback hands the
    accumulator on unchanged, and the catalog built from a manifest with
    such an entry is the catalog built without it (so the entry adds no key
    and cannot make the construction throw).  A description with an
    [attributes] object is not skipped even when [NAME] or [BANDWIDTH] is
    missing: it writes [NAME] under the string form of [BANDWIDTH], which
    is "undefined" when [BANDWIDTH] is absent. *)
Theorem getBandwidthToNameMap_skips_without_attributes :
  (∀ acc playlist,
     without_attributes playlist = true →
     bandwidthToName_step acc playlist = inr acc)
  ∧ (∀ this1 this2 before playlist after,
       without_attributes playlist = true →
       bandwidthToNameMap this1 = None →
       bandwidthToNameMap this2 = None →
       getMasterPlaylists this1 = before ++ playlist :: after →
       getMasterPlaylists this2 = before ++ after →
       returned (getBandwidthToNameMap this1)
       = returned (getBandwidthToNameMap this2))
  ∧ (∀ acc NAME BANDWIDTH,
       ∃ names,
         bandwidthToName_step acc (DescObject (AttrsObject NAME BANDWIDTH))
         = inr names
         ∧ names !! match BANDWIDTH with
                    | Some b => pretty b
                    | None => "undefined"
                    end = Some NAME
         ∧ dom names = {[toString (of_field BANDWIDTH)]} ∪ dom acc).
Proof.
  split_and!.
  - apply bandwidthToName_step_skip.
  - intros this1 this2 before playlist after Hskip Hc1 Hc2 Hm1 Hm2.
    unfold getBandwidthToNameMap. rewrite Hc1, Hc2, Hm1, Hm2.
    rewrite reduce_skip by done.
    by destruct (reduce _ _ _).
  - intros acc NAME BANDWIDTH. eexists. split; [done|]. split.
    + destruct BANDWIDTH; apply lookup_insert_eq.
    + apply dom_insert_L.
Qed.

Lemma getBandwidthToNameMap_skips_without_attributes_witness :
  bandwidthToName_step ∅ (DescObject AttrsNotObject) = inr ∅
  ∧ returned (getBandwidthToNameMap
                (plugin_of_manifest
                   [DescObject (AttrsObject (Some "720p") (Some 2000000));
                    DescNotObject;
                    DescObject (AttrsObject (Some "1080p") (Some 5000000))]))
    = returned (getBandwidthToNameMap
                  (plugin_of_manifest
                     [DescObject (AttrsObject (Some "720p") (Some 2000000));
                      DescObject (AttrsObject (Some "1080p") (Some 5000000))])).
Proof.
  destruct getBandwidthToNameMap_skips_without_attributes as (Hstep & Hmap & _).
  split.
  - apply Hstep. reflexivity.
  - apply (Hmap _ _ [DescObject (AttrsObject (Some "720p") (Some 2000000))]
             DescNotObject
             [DescObject (AttrsObject (Some "1080p") (Some 5000000))]);
      reflexivity.
Defined.

(** C7 as stated fails: a description whose [attributes] object has
    neither [NAME] nor [BANDWIDTH] is not skipped, the catalog built from
    it has the key "undefined"; and one that has a [BANDWIDTH] but no
    [NAME] adds its bandwidth as a key. *)
Lemma getBandwidthToNameMap_keyless_counterexample :
  (returned (getBandwidthToNameMap
               (plugin_of_manifest [DescObject (AttrsObject None None)]))
   = Some {["undefined" := None]}
   ∧ dom ({["undefined" := None]} : gmap string (option string)) ≠ ∅)
  ∧ (returned (getBandwidthToNameMap
                 (plugin_of_manifest [DescObject (AttrsObject None (Some 2000000))]))
     = Some {["2000000" := None]}
     ∧ dom ({["2000000" := None]} : gmap string (option string)) ≠ ∅).
Proof.
  split; (split; [by vm_compute|]); rewrite dom_singleton_L; set_solver.
Qed.

(** ** Quality metadata *)

Lemma pixels_min w h : pixels (Some w) (Some h) = Some (w `min` h).
Proof.
  unfold pixels, greater, less; simpl.
  destruct (Z.ltb_spec h w); f_equal; lia.
Qed.

Lemma pixels_no_width height : pixels None height = None.
Proof. by destruct height. Qed.

Lemma pixels_no_height w : pixels (Some w) None = Some w.
Proof. done. Qed.

Lemma getQualityMeta_value item this meta this' :
  getQualityMeta item this = inr (meta, this') →
  value meta = of_field (bandwidth item).
Proof.
  unfold getQualityMeta.
  destruct (_ || _).
  - unfold mbind, M_bind. destruct (getBandwidthToNameMap this) as [|[names this'']]; [done|].
    by intros [= <- <-].
  - by intros [= <- <-].
Qed.

Lemma getQualityMeta_returns item this :
  catalog_available this →
  ∃ meta this',
    getQualityMeta item this = inr (meta, this')
    ∧ catalog_available this'
    ∧ same_but_catalog this this'.
Proof.
  intros Hthis. unfold getQualityMeta.
  destruct (_ || _).
  - destruct (getBandwidthToNameMap_returns this Hthis)
      as (names & this' & Hget & Hcache & Hsame).
    unfold mbind, M_bind. rewrite Hget. do 2 eexists. split; [done|].
    split; [|done]. left. by rewrite Hcache.
  - do 2 eexists. split; [done|]. auto using same_but_catalog_refl.
Qed.

(** C1, as amended: for every rendition whose width and height are both
    present and nonzero, [getQualityMeta] returns, leaves the plugin as it
    was, and the label of the result is the smaller of width and height
    followed by "p". *)
Theorem getQualityMeta_geometry_label this item w h :
  width item = Some w → height item = Some h → w ≠ 0 → h ≠ 0 →
  ∃ v, getQualityMeta item this
       = inr ({| label := VStr (pretty (w `min` h) +:+ "p");
                 value := v;
                 selected := None |}, this).
Proof.
  intros Hw Hh Hw0 Hh0. unfold getQualityMeta. rewrite Hw, Hh; simpl.
  apply Z.eqb_neq in Hw0, Hh0. rewrite Hw0, Hh0; simpl.
  rewrite pixels_min. by eexists.
Qed.

Lemma getQualityMeta_geometry_label_witness :
  ∃ v, getQualityMeta (rendition (Some 960) (Some 540) (Some 1500000)) sample_plugin
       = inr ({| label := VStr "540p"; value := v; selected := None |}, sample_plugin).
Proof.
  apply (getQualityMeta_geometry_label sample_plugin
           (rendition (Some 960) (Some 540) (Some 1500000)) 960 540);
    [reflexivity | reflexivity | lia | lia].
Defined.

(** C1 as stated fails: a 1280x720 rendition of bandwidth 2000000 gets the
    value 2000000, not 720; and a rendition of width 0 gets its label from
    the catalog (here a miss, so [undefined]) and its bandwidth as value,
    not "0p" and 0. *)
Lemma getQualityMeta_short_side_counterexample :
  (returned (getQualityMeta (rendition (Some 1280) (Some 720) (Some 2000000)) sample_plugin)
   = Some {| label := VStr "720p"; value := VNum 2000000; selected := None |}
   ∧ VNum 2000000 ≠ VNum (1280 `min` 720))
  ∧ (returned (getQualityMeta (rendition (Some 0) (Some 720) (Some 1500000)) sample_plugin)
     = Some {| label := VUndef; value := VNum 1500000; selected := None |}
     ∧ VUndef ≠ VStr (pretty (0 `min` 720) +:+ "p")
     ∧ VNum 1500000 ≠ VNum (0 `min` 720)).
Proof. split_and!; by vm_compute. Qed.

(** C9: a rendition whose width or height is missing or 0 takes the
    bandwidth-lookup branch.  When the catalog is available the call
    returns; the label is what the catalog holds under the decimal form of
    the bandwidth (under "undefined" when the bandwidth is missing or 0,
    and [undefined] on a miss), and the value is the bandwidth. *)
Theorem getQualityMeta_falsy_geometry this item :
  truthy (of_field (width item)) = false
  ∨ truthy (of_field (height item)) = false →
  catalog_available this →
  ∃ names this',
    getBandwidthToNameMap this = inr (names, this')
    ∧ getQualityMeta item this
      = inr ({| label :=
                  of_name (default None
                    (names !! match bandwidth item with
                              | Some b => if b =? 0 then "undefined" else pretty b
                              | None => "undefined"
                              end));
                value := of_field (bandwidth item);
                selected := None |}, this').
Proof.
  intros Hfalsy Hthis.
  destruct (getBandwidthToNameMap_returns this Hthis) as (names & this' & Hget & _).
  exists names, this'. split; [done|].
  unfold getQualityMeta.
  replace (negb (truthy (of_field (width item)))
           || negb (truthy (of_field (height item)))) with true
    by (destruct Hfalsy as [-> | ->]; by rewrite ?orb_true_r).
  unfold mbind, M_bind. rewrite Hget. unfold mret, M_ret, lookup_name.
  do 4 f_equal.
  destruct (bandwidth item) as [b|]; simpl; [|done].
  by destruct (b =? 0).
Qed.

Lemma getQualityMeta_falsy_geometry_witness :
  ∃ names this',
    getBandwidthToNameMap sample_plugin = inr (names, this')
    ∧ getQualityMeta (rendition (Some 0) (Some 720) (Some 2000000)) sample_plugin
      = inr ({| label := of_name (default None (names !! "2000000"));
                value := VNum 2000000;
                selected := None |}, this').
Proof.
  apply (getQualityMeta_falsy_geometry sample_plugin
           (rendition (Some 0) (Some 720) (Some 2000000)));
    [left; reflexivity | right; reflexivity].
Defined.

(** The end-to-end example of the specification: the catalog built from
    one variant named "720p" of bandwidth 2000000 names a rendition of that
    bandwidth without geometry. *)
Example getQualityMeta_bandwidth_only :
  returned (getQualityMeta (rendition None None (Some 2000000)) sample_plugin)
  = Some {| label := VStr "720p"; value := VNum 2000000; selected := None |}.
Proof. by vm_compute. Qed.

(** ** Selection applier *)

Lemma setQuality_qualityLevels quality this :
  qualityLevels (player (setQuality quality this))
  = setEnabled quality <$> qualityLevels (player this).
Proof. unfold setQuality. by destruct (displayCurrentQuality _). Qed.

Lemma setQuality_currentQuality quality this :
  _currentQuality (setQuality quality this) = quality.
Proof. unfold setQuality. by destruct (displayCurrentQuality _). Qed.

Lemma setEnabled_enabled quality level :
  enabled (setEnabled quality level) = true
  ↔ of_field (pixels (width level) (height level)) = quality
    ∨ quality = VStr "auto".
Proof.
  unfold setEnabled, strict_eq; simpl.
  rewrite orb_true_iff, !bool_decide_eq_true. done.
Qed.



(** The example of the specification: after [setQuality(540)] on
    960x540, 640x360 and 1920x1080, only the first rendition is enabled. *)
Example setQuality_540 :
  enabled <$> qualityLevels (player (setQuality (VNum 540) sample_plugin))
  = [true; false; false].
Proof. reflexivity. Qed.

(** C8: [setQuality] keeps the length of the engine's list and, position
    by position, the bandwidth, width and height of every rendition. *)
Theorem setQuality_frame this quality :
  length (qualityLevels (player (setQuality quality this)))
  = length (qualityLevels (player this))
  ∧ (λ level, (bandwidth level, width level, height level))
      <$> qualityLevels (player (setQuality quality this))
    = (λ level, (bandwidth level, width level, height level))
      <$> qualityLevels (player this).
Proof.
  rewrite setQuality_qualityLevels. split.
  - apply length_fmap.
  - rewrite <- list_fmap_compose. by apply list_fmap_ext.
Qed.

(** C10, as amended: after [setQuality] with a number [n], a rendition
    without a width is disabled, and a rendition with a width but without
    a height is enabled exactly when its width is [n]. *)
Theorem setQuality_missing_dimension this n i level :
  qualityLevels (player this) !! i = Some level →
  ∃ level',
    qualityLevels (player (setQuality (VNum n) this)) !! i = Some level'
    ∧ (width level = None → enabled level' = false)
    ∧ (∀ w, width level = Some w → height level = None →
         (enabled level' = true ↔ w = n)).
Proof.
  intros Hi. exists (setEnabled (VNum n) level). split_and!.
  - by rewrite setQuality_qualityLevels, list_lookup_fmap, Hi.
  - intros Hw. apply not_true_is_false.
    rewrite setEnabled_enabled, Hw, pixels_no_width; simpl.
    intros [?|?]; discriminate.
  - intros w Hw Hh. rewrite setEnabled_enabled, Hw, Hh, pixels_no_height; simpl.
    split.
    + intros [?|?]; congruence.
    + intros ->. by left.
Qed.

Lemma setQuality_missing_dimension_witness :
  ∃ level',
    qualityLevels (player (setQuality (VNum 540)
      (set_qualityLevels [rendition None None (Some 2000000)] sample_plugin))) !! 0%nat
    = Some level'
    ∧ (None = @None Z → enabled level' = false)
    ∧ (∀ w, None = Some w → @None Z = None → (enabled level' = true ↔ w = 540)).
Proof.
  apply (setQuality_missing_dimension
           (set_qualityLevels [rendition None None (Some 2000000)] sample_plugin)
           540 0%nat (rendition None None (Some 2000000))).
  reflexivity.
Defined.

(** C10 as stated fails: a rendition of width 1280 without a height is
    enabled by [setQuality(1280)]. *)
Lemma setQuality_missing_height_counterexample :
  enabled <$> qualityLevels (player (setQuality (VNum 1280)
    (set_qualityLevels [rendition (Some 1280) None (Some 2000000)] sample_plugin)))
  = [true].
Proof. reflexivity. Qed.

(** ** Menu synchronizer *)

Lemma get_elem_of {V} (o : object V) k v :
  get o k = Some v → v ∈ o.*2.
Proof.
  unfold get. destruct (find _ o) as [[k' v']|] eqn:Hfind; [|done].
  intros [= <-]. apply find_some in Hfind as [Hin _].
  apply list_elem_of_fmap. exists (k', v'). split; [done|].
  by apply list_elem_of_In.
Qed.

Lemma set_Forall {V} (P : V → Prop) (o : object V) k v :
  P v → Forall P o.*2 → Forall P (set o k v).*2.
Proof.
  intros Hv. induction o as [|[k' v'] o IH]; simpl.
  - by repeat constructor.
  - intros [Hv' Ho]%Forall_cons.
    destruct (String.eqb k' k); simpl; constructor; auto.
Qed.

Lemma keys_items_Forall {V} (P : V → Prop) (o : object V) :
  Forall P o.*2 → Forall P (omap (get o) (keys o)).
Proof.
  intros Ho. apply Forall_forall. intros v (k & _ & Hget)%list_elem_of_omap.
  rewrite Forall_forall in Ho. eauto using get_elem_of.
Qed.

Lemma getLevelItems_loop_returns all levels items this :
  catalog_available this →
  levels ⊆ all →
  Forall (from_levels all) items.*2 →
  ∃ items' this',
    getLevelItems_loop levels items this = inr (items', this')
    ∧ Forall (from_levels all) items'.*2
    ∧ catalog_available this'
    ∧ same_but_catalog this this'.
Proof.
  revert items this.
  induction levels as [|level levels IH]; intros items this Hthis Hsub Hitems; simpl.
  - exists items, this. auto using same_but_catalog_refl.
  - destruct (getQualityMeta_returns level this Hthis)
      as (meta & this1 & Hmeta & Hthis1 & Hsame1).
    unfold mbind, M_bind. rewrite Hmeta.
    apply getQualityMeta_value in Hmeta.
    match goal with
    | |- context [getLevelItems_loop levels ?items1 this1] =>
        destruct (IH items1 this1 Hthis1) as (items' & this' & Hloop & ? & ? & Hsame)
    end.
    + set_solver.
    + destruct (get items _); [done|].
      apply set_Forall; [|done].
      exists level. split; [set_solver|done].
    + rewrite Hloop. eauto 10 using same_but_catalog_trans.
Qed.

Lemma getLevelItems_returns levels this :
  catalog_available this →
  ∃ levelItems this',
    getLevelItems levels this = inr (levelItems, this')
    ∧ Forall (from_levels levels) levelItems
    ∧ same_but_catalog this this'.
Proof.
  intros Hthis.
  destruct (getLevelItems_loop_returns levels levels [] this)
    as (items & this' & Hloop & Hitems & _ & Hsame); [done..|by constructor|].
  unfold getLevelItems, mbind, M_bind. rewrite Hloop.
  do 2 eexists. split; [done|]. split; [|done].
  by apply keys_items_Forall.
Qed.

Lemma autoItem_same this this' :
  same_but_catalog this this' → autoItem this' = autoItem this.
Proof. intros (Hplayer & _). unfold autoItem. by rewrite Hplayer. Qed.

(** What a rendition-discovery event installs in the button: the level
    entries, sorted, and then the "Auto" entry. *)
Lemma onAddQualityLevel_returns this :
  catalog_available this →
  ∃ levelItems this',
    onAddQualityLevel this = inr (tt, this')
    ∧ Forall (from_levels (qualityLevels (player this))) levelItems
    ∧ createItems (_qualityButton this')
      = sort compareItems levelItems ++ [autoItem this]
    ∧ player this' = player this
    ∧ _currentQuality this' = _currentQuality this.
Proof.
  intros Hthis.
  destruct (getLevelItems_returns (qualityLevels (player this)) this Hthis)
    as (levelItems & this1 & Hget & Hitems & Hsame).
  unfold onAddQualityLevel. rewrite Hget.
  do 2 eexists. split; [done|]. split; [done|]. simpl.
  rewrite (autoItem_same this this1) by done.
  destruct Hsame as (? & _ & _ & ?). done.
Qed.

Lemma filter_none {A} (P : A → Prop) `{∀ x, Decision (P x)} (l : list A) :
  Forall (λ x, ¬ P x) l → filter P l = [].
Proof.
  induction 1 as [|x l Hx _ IH]; [done|].
  by rewrite filter_cons_False.
Qed.

Lemma from_levels_not_auto levels entry :
  from_levels levels entry → value (item entry) ≠ VStr "auto".
Proof. intros (level & _ & ->). by destruct (bandwidth level). Qed.

(** C5: whatever the rendition list, a rendition-discovery event (on a
    plugin whose catalog is available) returns, and the entry list it
    installs ends with the "Auto" entry, which is the only entry of the
    list whose value is "auto". *)
Theorem onAddQualityLevel_auto_last this :
  catalog_available this →
  ∃ this',
    onAddQualityLevel this = inr (tt, this')
    ∧ last (createItems (_qualityButton this')) = Some (autoItem this)
    ∧ value (item (autoItem this)) = VStr "auto"
    ∧ filter (λ entry, value (item entry) = VStr "auto")
        (createItems (_qualityButton this'))
      = [autoItem this].
Proof.
  intros Hthis.
  destruct (onAddQualityLevel_returns this Hthis)
    as (levelItems & this' & Hrun & Hitems & Hcreate & _).
  exists this'. rewrite Hcreate.
  split_and!; [done|apply last_snoc|done|].
  rewrite filter_app.
  replace (filter _ (sort compareItems levelItems)) with (@nil ConcreteMenuItem);
    [done|].
  symmetry. apply filter_none.
  rewrite sort_Permutation.
  eapply Forall_impl; [done|]. apply from_levels_not_auto.
Qed.

Lemma onAddQualityLevel_auto_last_witness :
  ∃ this',
    onAddQualityLevel sample_plugin = inr (tt, this')
    ∧ last (createItems (_qualityButton this')) = Some (autoItem sample_plugin)
    ∧ value (item (autoItem sample_plugin)) = VStr "auto"
    ∧ filter (λ entry, value (item entry) = VStr "auto")
        (createItems (_qualityButton this'))
      = [autoItem sample_plugin].
Proof.
  apply (onAddQualityLevel_auto_last sample_plugin).
  right. reflexivity.
Defined.

Lemma compareItems_numeric current next x y :
  value (item current) = VNum x → value (item next) = VNum y →
  compareItems current next
  = if x <? y then -1 else if y <? x then 1 else 0.
Proof. intros Hx Hy. unfold compareItems, greater, less. by rewrite Hx, Hy. Qed.

Lemma compareItems_le current next x y :
  value (item current) = VNum x → value (item next) = VNum y →
  compareItems current next ≤ 0 ↔ x ≤ y.
Proof.
  intros Hx Hy. rewrite (compareItems_numeric _ _ x y) by done.
  destruct (Z.ltb_spec x y), (Z.ltb_spec y x); lia.
Qed.

Lemma sort_compareItems_sorted levelItems :
  Forall numeric levelItems →
  StronglySorted (λ current next, compareItems current next ≤ 0)
    (sort compareItems levelItems).
Proof.
  apply (sort_StronglySorted compareItems numeric).
  - intros current next [x Hx] [y Hy].
    rewrite (compareItems_le next current y x) by done.
    rewrite (compareItems_numeric _ _ x y) by done.
    destruct (Z.ltb_spec x y), (Z.ltb_spec y x); lia.
  - intros e1 e2 e3 [x Hx] [y Hy] [z Hz].
    rewrite (compareItems_le e1 e2 x y), (compareItems_le e2 e3 y z),
      (compareItems_le e1 e3 x z) by done.
    lia.
Qed.

Lemma numeric_values entries :
  Forall numeric entries →
  StronglySorted (λ current next, compareItems current next ≤ 0) entries →
  ∃ numbers,
    (λ entry, value (item entry)) <$> entries = VNum <$> numbers
    ∧ StronglySorted Z.le numbers.
Proof.
  induction 1 as [|entry entries [n Hn] Hnum IH]; intros Hsorted.
  - exists []. split; [done|constructor].
  - apply StronglySorted_inv in Hsorted as [Hsorted Hfirst].
    destruct (IH Hsorted) as (numbers & Hvalues & Hnumbers).
    exists (n :: numbers). split; [by rewrite !fmap_cons, Hn, Hvalues|].
    constructor; [done|].
    assert (Forall (λ v, ∀ m, v = VNum m → n ≤ m)
              ((λ entry, value (item entry)) <$> entries)) as Hle.
    { apply Forall_fmap. rewrite Forall_forall in Hfirst, Hnum.
      apply Forall_forall. intros next Hnext m Hm. simpl in Hm.
      by apply (compareItems_le entry next n m); [| |apply Hfirst]. }
    rewrite Hvalues, Forall_fmap in Hle.
    eapply Forall_impl; [exact Hle|]. intros m Hm. by apply Hm.
Qed.

(** C6, as amended: when every rendition has a bandwidth (so that every
    entry value is a number), a rendition-discovery event returns and the
    entries it installs before the trailing "Auto" entry have their values
    in non-decreasing order. *)
Theorem onAddQualityLevel_sorted this :
  catalog_available this →
  Forall (λ level, is_Some (bandwidth level)) (qualityLevels (player this)) →
  ∃ this' entries numbers,
    onAddQualityLevel this = inr (tt, this')
    ∧ createItems (_qualityButton this') = entries ++ [autoItem this]
    ∧ (λ entry, value (item entry)) <$> entries = VNum <$> numbers
    ∧ StronglySorted Z.le numbers.
Proof.
  intros Hthis Hlevels.
  destruct (onAddQualityLevel_returns this Hthis)
    as (levelItems & this' & Hrun & Hitems & Hcreate & _).
  assert (Forall numeric levelItems) as Hnum.
  { eapply Forall_impl; [exact Hitems|].
    intros entry (level & Hlevel & Hvalue).
    rewrite Forall_forall in Hlevels.
    destruct (Hlevels level Hlevel) as [n Hn].
    exists n. by rewrite Hvalue, Hn. }
  destruct (numeric_values (sort compareItems levelItems))
    as (numbers & Hvalues & Hsorted).
  { by rewrite sort_Permutation. }
  { by apply sort_compareItems_sorted. }
  by exists this', (sort compareItems levelItems), numbers.
Qed.

Lemma onAddQualityLevel_sorted_witness :
  ∃ this' entries numbers,
    onAddQualityLevel sample_plugin = inr (tt, this')
    ∧ createItems (_qualityButton this') = entries ++ [autoItem sample_plugin]
    ∧ (λ entry, value (item entry)) <$> entries = VNum <$> numbers
    ∧ StronglySorted Z.le numbers.
Proof.
  apply (onAddQualityLevel_sorted sample_plugin).
  - right. reflexivity.
  - repeat constructor; by eexists.
Defined.

(** C6 as stated fails: it does not hold for every rendition list.  With
    bandwidths 7000000000, none and 5000000000 the entry of the rendition
    without a bandwidth has the value [undefined]; the comparator answers 0
    for it against either neighbour, so no entry compares below the one
    before it and the three stay as they were discovered: 7000000000 comes
    before 5000000000. *)
Lemma onAddQualityLevel_unsorted_counterexample :
  (λ this', (λ entry, value (item entry)) <$> createItems (_qualityButton this'))
    <$> final (onAddQualityLevel
                 (set_qualityLevels
                    [rendition (Some 1920) (Some 1080) (Some 7000000000);
                     rendition (Some 1280) (Some 720) None;
                     rendition (Some 640) (Some 360) (Some 5000000000)]
                    sample_plugin))
  = Some [VNum 7000000000; VUndef; VNum 5000000000; VStr "auto"]
  ∧ greater (VNum 7000000000) (VNum 5000000000) = true.
Proof. by vm_compute. Qed.

(** The entry list of the sample: the three renditions by ascending
    bandwidth, then "Auto". *)
Example onAddQualityLevel_sample :
  (λ this', (λ entry, (label (item entry), value (item entry)))
              <$> createItems (_qualityButton this'))
    <$> final (onAddQualityLevel sample_plugin)
  = Some [(VStr "360p", VNum 800000); (VStr "540p", VNum 1500000);
          (VStr "1080p", VNum 5000000); (VStr "Auto", VStr "auto")].
Proof. by vm_compute. Qed.

(** ** Deduplication in [getLevelItems] *)

Lemma pretty_N_go_ne_undefined x s :
  s ≠ "undefined" → pretty_N_go x s ≠ "undefined".
Proof.
  revert s. induction (N.lt_wf_0 x) as [x _ IH]; intros s Hs.
  assert (x = 0 ∨ 0 < x)%N as [->|Hx] by lia.
  - by rewrite pretty_N_go_0.
  - rewrite pretty_N_go_step by done. apply IH.
    { by apply N.div_lt. }
    unfold pretty_N_char. by repeat case_match.
Qed.

Lemma pretty_Z_ne_undefined (n : Z) : pretty n ≠ "undefined".
Proof.
  destruct n as [|p|p]; [done| |done].
  unfold pretty, pretty_Z, pretty, pretty_positive, pretty, pretty_N.
  rewrite decide_False by done.
  by apply pretty_N_go_ne_undefined.
Qed.

(** The property keys of two bandwidths coincide only when the bandwidths
    do. *)
Lemma toString_of_field_inj (a b : option Z) :
  toString (of_field a) = toString (of_field b) → a = b.
Proof.
  destruct a as [x|], b as [y|]; simpl; intros Heq.
  - f_equal. by apply (inj pretty).
  - by destruct (pretty_Z_ne_undefined x).
  - by destruct (pretty_Z_ne_undefined y).
  - done.
Qed.

Lemma get_None {V} (o : object V) k : get o k = None ↔ k ∉ o.*1.
Proof.
  unfold get. induction o as [|[k' v'] o IH]; simpl.
  - split; [|done]. intros _. apply not_elem_of_nil.
  - rewrite not_elem_of_cons.
    destruct (String.eqb_spec k' k) as [->|Hne]; simpl.
    + split; [done|]. by intros [[] _].
    + rewrite IH. split; [by split|by intros [_ ?]].
Qed.

Lemma get_Some {V} (o : object V) k v :
  NoDup o.*1 → (k, v) ∈ o → get o k = Some v.
Proof.
  unfold get. induction o as [|[k' v'] o IH]; simpl.
  - by intros _ ?%elem_of_nil.
  - intros [Hk' Ho]%NoDup_cons [[= -> ->]|Hin]%elem_of_cons.
    + by rewrite String.eqb_refl.
    + destruct (String.eqb_spec k' k) as [->|Hne]; simpl; [|by apply IH].
      destruct Hk'. apply list_elem_of_fmap. by exists (k, v).
Qed.

Lemma set_absent {V} (o : object V) k v :
  get o k = None → set o k v = o ++ [(k, v)].
Proof.
  unfold get. induction o as [|[k' v'] o IH]; simpl; [done|].
  destruct (String.eqb k' k); simpl; [done|].
  intros Hget. by rewrite IH.
Qed.

Lemma array_index_pretty k n : array_index k = Some n → pretty n = k.
Proof.
  unfold array_index. destruct k as [|c k]; [done|].
  destruct (parse_digits _ _) as [m|]; simpl; [|done].
  destruct (bool_decide_reflect (pretty m = String c k)) as [Hm|]; simpl; [|done].
  destruct (m <? 4294967295)%N; [|done]. by intros [= <-].
Qed.

(** [Object.keys] lists every property once. *)
Lemma keys_Permutation {V} (o : object V) : keys o ≡ₚ o.*1.
Proof.
  unfold keys. rewrite merge_sort_Permutation.
  induction o as [|[k v] o IH]; simpl; [done|].
  rewrite filter_cons. simpl.
  destruct (array_index k) as [n|] eqn:Hk.
  - rewrite decide_False by done. simpl.
    rewrite (array_index_pretty k n Hk). by f_equiv.
  - rewrite decide_True by done.
    rewrite <- Permutation_middle. by f_equiv.
Qed.

Lemma omap_get_keys {V} (o : object V) :
  NoDup o.*1 → omap (get o) o.*1 = o.*2.
Proof.
  intros Ho.
  assert (∀ l : list (string * V), l ⊆ o → omap (get o) l.*1 = l.*2) as Hsub.
  { induction l as [|[k v] l IH]; intros Hl; simpl; [done|].
    rewrite (get_Some o k v) by set_solver. f_equal. apply IH. set_solver. }
  by apply Hsub.
Qed.

Lemma keys_items_Permutation {V} (o : object V) :
  NoDup o.*1 → omap (get o) (keys o) ≡ₚ o.*2.
Proof.
  intros Ho. by rewrite keys_Permutation, omap_get_keys.
Qed.

Lemma get_elem_of_pair {V} (o : object V) k v :
  get o k = Some v → (k, v) ∈ o.
Proof.
  unfold get. destruct (find _ o) as [[k' v']|] eqn:Hfind; [|done].
  intros [= <-]. apply find_some in Hfind as [Hin Hk].
  apply String.eqb_eq in Hk. simpl in Hk. subst k'.
  by apply list_elem_of_In.
Qed.

Lemma items_of_nil : items_of [] [].
Proof.
  split_and!; [constructor|by intros ?? ?%elem_of_nil|done].
Qed.

Lemma items_of_step seen items level meta :
  value meta = of_field (bandwidth level) →
  items_of seen items →
  items_of (seen ++ [level])
    match get items (toString (value meta)) with
    | Some _ => items
    | None =>
        set items (toString (value meta))
          (getQualityMenuItem
             {| label := label meta; value := value meta; selected := None |})
    end.
Proof.
  intros Hvalue (Hnodup & Hkeys & Hvalues).
  destruct (get items _) as [entry|] eqn:Hget.
  - split_and!; [done..|].
    intros v. rewrite Hvalues, fmap_app, elem_of_app; simpl.
    rewrite list_elem_of_singleton.
    split; [by left|]. intros [?| ->]; [done|].
    apply get_elem_of_pair in Hget.
    assert (value (item entry) ∈ (λ entry, value (item entry)) <$> items.*2) as Hin.
    { apply list_elem_of_fmap. exists entry. split; [done|].
      apply list_elem_of_fmap. by exists (toString (value meta), entry). }
    apply Hkeys in Hget. rewrite Hvalue in Hget.
    pose proof Hin as (level' & Hentry & Hlevel')%Hvalues%list_elem_of_fmap.
    rewrite Hentry in Hget. apply toString_of_field_inj in Hget.
    rewrite Hget. apply list_elem_of_fmap. by exists level'.
  - rewrite set_absent by done. apply get_None in Hget. split_and!.
    + rewrite fmap_app. apply NoDup_app. split_and!; [done| |apply NoDup_singleton].
      intros k Hk ->%list_elem_of_singleton. done.
    + intros k entry [Hin|[= -> ->]%list_elem_of_singleton]%elem_of_app; [|done].
      by apply Hkeys.
    + intros v. rewrite !fmap_app, !elem_of_app, Hvalues; simpl.
      by rewrite !list_elem_of_singleton, Hvalue.
Qed.

Lemma getLevelItems_loop_items_of seen levels items this :
  catalog_available this →
  items_of seen items →
  ∃ items' this',
    getLevelItems_loop levels items this = inr (items', this')
    ∧ items_of (seen ++ levels) items'.
Proof.
  revert seen items this.
  induction levels as [|level levels IH]; intros seen items this Hthis Hitems; simpl.
  - exists items, this. by rewrite app_nil_r.
  - destruct (getQualityMeta_returns level this Hthis)
      as (meta & this1 & Hmeta & Hthis1 & _).
    unfold mbind, M_bind. rewrite Hmeta.
    apply getQualityMeta_value in Hmeta.
    rewrite (cons_middle level), app_assoc.
    apply IH; [done|]. by apply items_of_step.
Qed.

(** [getLevelItems] returns exactly one entry for each distinct value
    among the renditions, and the value of a rendition is its bandwidth:
    renditions are told apart by bandwidth, whatever their short sides. *)
Theorem getLevelItems_one_entry_per_bandwidth levels this :
  catalog_available this →
  ∃ levelItems this',
    getLevelItems levels this = inr (levelItems, this')
    ∧ NoDup ((λ entry, value (item entry)) <$> levelItems)
    ∧ (∀ v, v ∈ (λ entry, value (item entry)) <$> levelItems
            ↔ v ∈ (λ level, of_field (bandwidth level)) <$> levels).
Proof.
  intros Hthis.
  destruct (getLevelItems_loop_items_of [] levels [] this Hthis items_of_nil)
    as (items & this' & Hloop & Hnodup & Hkeys & Hvalues).
  unfold getLevelItems, mbind, M_bind. rewrite Hloop.
  do 2 eexists. split; [done|].
  pose proof (keys_items_Permutation items Hnodup) as Hperm.
  split; [rewrite Hperm|by intros v; rewrite Hperm].
  apply (NoDup_fmap_1 toString).
  replace (toString <$> ((λ entry, value (item entry)) <$> items.*2))
    with items.*1; [done|].
  rewrite <- !list_fmap_compose. apply list_fmap_ext.
  intros i [k entry] Hi. simpl. apply Hkeys. by eapply list_elem_of_lookup_2.
Qed.

(** C2, the behaviour of the code at the failing input: two 1280x720
    renditions of different bandwidths share the short side 720, and
    [getLevelItems] returns two entries for them, both labelled "720p". *)
Theorem getLevelItems_same_short_side :
  returned (getLevelItems
              [rendition (Some 1280) (Some 720) (Some 2000000);
               rendition (Some 1280) (Some 720) (Some 3000000)]
              sample_plugin)
  = Some [getQualityMenuItem
            {| label := VStr "720p"; value := VNum 2000000; selected := None |};
          getQualityMenuItem
            {| label := VStr "720p"; value := VNum 3000000; selected := None |}].
Proof. by vm_compute. Qed.

(** ** Current quality *)

Lemma getBandwidthToNameMap_same names this this' :
  getBandwidthToNameMap this = inr (names, this') → same_but_catalog this this'.
Proof.
  unfold getBandwidthToNameMap.
  destruct (bandwidthToNameMap this).
  - intros [= _ <-]. apply same_but_catalog_refl.
  - destruct (reduce _ _ _); [done|]. intros [= _ <-]. by repeat split.
Qed.

Lemma getQualityMeta_same item meta this this' :
  getQualityMeta item this = inr (meta, this') → same_but_catalog this this'.
Proof.
  unfold getQualityMeta. destruct (_ || _).
  - unfold mbind, M_bind.
    destruct (getBandwidthToNameMap this) as [|[names this1]] eqn:Hget; [done|].
    intros [= _ <-]. by eapply getBandwidthToNameMap_same.
  - intros [= _ <-]. apply same_but_catalog_refl.
Qed.

Lemma getLevelItems_loop_same levels items items' this this' :
  getLevelItems_loop levels items this = inr (items', this') →
  same_but_catalog this this'.
Proof.
  revert items this. induction levels as [|level levels IH]; intros items this; simpl.
  - intros [= _ <-]. apply same_but_catalog_refl.
  - unfold mbind, M_bind.
    destruct (getQualityMeta level this) as [|[meta this1]] eqn:Hmeta; [done|].
    intros Hloop. eapply same_but_catalog_trans.
    + by eapply getQualityMeta_same.
    + by eapply IH.
Qed.

Lemma onAddQualityLevel_currentQuality this this' :
  onAddQualityLevel this = inr (tt, this') →
  _currentQuality this' = _currentQuality this.
Proof.
  unfold onAddQualityLevel, getLevelItems, mbind, M_bind.
  destruct (getLevelItems_loop _ _ this) as [|[items this1]] eqn:Hloop; [done|].
  apply getLevelItems_loop_same in Hloop as (_ & _ & _ & Hquality).
  by intros [= <-].
Qed.

Lemma never_selected_currentQuality this :
  never_selected this → _currentQuality this = VUndef.
Proof.
  induction 1 as [player options|this levels _ IH|this this' _ IH Hrun].
  - unfold constructor, createQualityButton; simpl.
    by destruct (displayCurrentQuality options).
  - done.
  - by rewrite (onAddQualityLevel_currentQuality this this').
Qed.

(** C4, as amended: [getCurrentQuality] returns "auto" as long as
    [setQuality] has not been called.  After [setQuality(quality)] it
    returns [quality] when [quality] is truthy (a nonzero number, a
    nonempty string), and "auto" when it is falsy (0, the empty string,
    [undefined]). *)
Theorem getCurrentQuality_last_set :
  (∀ this, never_selected this → getCurrentQuality this = VStr "auto")
  ∧ (∀ this quality,
       truthy quality = true →
       getCurrentQuality (setQuality quality this) = quality)
  ∧ (∀ this quality,
       truthy quality = false →
       getCurrentQuality (setQuality quality this) = VStr "auto").
Proof.
  unfold getCurrentQuality, logical_or. split_and!.
  - intros this Hthis. by rewrite never_selected_currentQuality.
  - intros this quality Htruthy. by rewrite setQuality_currentQuality, Htruthy.
  - intros this quality Hfalsy. by rewrite setQuality_currentQuality, Hfalsy.
Qed.

Lemma getCurrentQuality_last_set_witness :
  getCurrentQuality sample_plugin = VStr "auto"
  ∧ getCurrentQuality (setQuality (VNum 540) sample_plugin) = VNum 540
  ∧ getCurrentQuality (setQuality VUndef sample_plugin) = VStr "auto".
Proof.
  destruct getCurrentQuality_last_set as (Hnew & Hset & Hfalsy).
  split_and!.
  - apply Hnew. apply never_selected_new.
  - apply Hset. reflexivity.
  - apply Hfalsy. reflexivity.
Defined.

(** C4 as stated fails: after [setQuality(0)], [getCurrentQuality] returns
    "auto", not 0. *)
Lemma getCurrentQuality_zero_counterexample :
  getCurrentQuality (setQuality (VNum 0) sample_plugin) = VStr "auto"
  ∧ VStr "auto" ≠ VNum 0.
Proof. by split. Qed.

(** * Further properties *)

(** ** The catalog *)

Lemma reduce_throws l acc :
  reduce bandwidthToName_step l acc = inl TypeError
  ↔ ∃ playlist, playlist ∈ l ∧ wellformed playlist = false.
Proof.
  revert acc. induction l as [|playlist l IH]; intros acc; simpl.
  - split; [done|]. by intros (? & ?%elem_of_nil & _).
  - destruct (bandwidthToName_step acc playlist) as [[]|acc'] eqn:Hstep.
    + split; [|done]. intros _. exists playlist. split; [left|].
      by destruct playlist as [| |[| |NAME BANDWIDTH]].
    + rewrite IH. split.
      * intros (p & Hp & Hwf). exists p. split; [by right|done].
      * intros (p & [->|Hp]%elem_of_cons & Hwf); [|by exists p].
        by destruct playlist as [| |[| |NAME BANDWIDTH]].
Qed.

Lemma reduce_no_write key l acc names :
  (∀ playlist, playlist ∈ l → ¬ writes key playlist) →
  reduce bandwidthToName_step l acc = inr names →
  names !! key = acc !! key.
Proof.
  revert acc. induction l as [|playlist l IH]; intros acc Hl; simpl.
  - by intros [= <-].
  - destruct (bandwidthToName_step acc playlist) as [|acc'] eqn:Hstep; [done|].
    intros Hnames. rewrite (IH acc') by (done || set_solver).
    destruct playlist as [| |[| |NAME BANDWIDTH]]; simplify_eq/=; try done.
    apply lookup_insert_ne. intros <-.
    apply (Hl (DescObject (AttrsObject NAME BANDWIDTH))); [left|].
    by exists NAME, BANDWIDTH.
Qed.

Lemma reduce_dom key l acc names :
  reduce bandwidthToName_step l acc = inr names →
  key ∈ dom names
  ↔ key ∈ dom acc ∨ ∃ playlist, playlist ∈ l ∧ writes key playlist.
Proof.
  revert acc. induction l as [|playlist l IH]; intros acc; simpl.
  - intros [= <-]. split; [by left|]. by intros [?|(? & ?%elem_of_nil & _)].
  - destruct (bandwidthToName_step acc playlist) as [|acc'] eqn:Hstep; [done|].
    intros Hnames. rewrite (IH acc' Hnames).
    assert (key ∈ dom acc' ↔ key ∈ dom acc ∨ writes key playlist) as ->.
    { destruct playlist as [| |[| |NAME BANDWIDTH]]; simplify_eq/=.
      - split; [by left|]. by intros [?|(? & ? & ? & _)].
      - split; [by left|]. by intros [?|(? & ? & ? & _)].
      - rewrite dom_insert_L, elem_of_union, elem_of_singleton. split.
        + intros [->|?]; [right|by left]. by exists NAME, BANDWIDTH.
        + intros [?|(? & ? & [= <- <-] & ->)]; [by right|by left]. }
    split.
    + intros [[?|?]|(p & ? & ?)]; [by left|right..].
      * exists playlist. split; [left|done].
      * exists p. split; [by right|done].
    + intros [?|(p & [->|?]%elem_of_cons & ?)].
      * by left; left.
      * by left; right.
      * right. by exists p.
Qed.

Lemma getBandwidthToNameMap_throws this :
  getBandwidthToNameMap this = inl TypeError
  ↔ bandwidthToNameMap this = None
    ∧ ∃ playlist,
        playlist ∈ getMasterPlaylists this ∧ wellformed playlist = false.
Proof.
  unfold getBandwidthToNameMap.
  destruct (bandwidthToNameMap this) as [names|].
  - split; [done|]. by intros [? _].
  - rewrite <- (reduce_throws _ ∅).
    destruct (reduce _ _ _) as [[]|names]; simpl.
    + by split.
    + split; [done|]. by intros [_ ?].
Qed.

Lemma getBandwidthToNameMap_returned this names this' :
  getBandwidthToNameMap this = inr (names, this') →
  bandwidthToNameMap this' = Some names ∧ same_but_catalog this this'.
Proof.
  unfold getBandwidthToNameMap.
  destruct (bandwidthToNameMap this) as [cached|] eqn:Hcache.
  - intros [= <- <-]. auto using same_but_catalog_refl.
  - destruct (reduce _ _ _); [done|]. intros [= <- <-].
    split; [done|]. by repeat split.
Qed.

(** How [getBandwidthToNameMap] ends.  With a catalog cached it returns
    that catalog and leaves the plugin as it is.  With nothing cached and a
    manifest list that has a [null] description or a description with
    [null] attributes it throws.  Whenever it returns, the map it returns
    is the one now cached and nothing else of the plugin has changed. *)
Theorem getBandwidthToNameMap_outcome this :
  (∀ names,
     bandwidthToNameMap this = Some names →
     getBandwidthToNameMap this = inr (names, this))
  ∧ (bandwidthToNameMap this = None →
     (∃ playlist,
        playlist ∈ getMasterPlaylists this ∧ wellformed playlist = false) →
     getBandwidthToNameMap this = inl TypeError)
  ∧ (∀ names this',
       getBandwidthToNameMap this = inr (names, this') →
       bandwidthToNameMap this' = Some names ∧ same_but_catalog this this').
Proof.
  split; [|split].
  - intros names Hcache. unfold getBandwidthToNameMap. by rewrite Hcache.
  - intros Hcache Hnull. by apply getBandwidthToNameMap_throws.
  - intros names this'. apply getBandwidthToNameMap_returned.
Qed.

Lemma getBandwidthToNameMap_outcome_witness :
  getBandwidthToNameMap (with_catalog sample_plugin)
  = inr ({["2000000" := Some "720p"]}, with_catalog sample_plugin)
  ∧ getBandwidthToNameMap
      (plugin_of_manifest
         [DescObject (AttrsObject (Some "720p") (Some 2000000)); DescNull])
    = inl TypeError
  ∧ bandwidthToNameMap (with_catalog sample_plugin)
    = Some {["2000000" := Some "720p"]}
  ∧ same_but_catalog sample_plugin (with_catalog sample_plugin).
Proof.
  split; [|split].
  - apply (proj1 (getBandwidthToNameMap_outcome (with_catalog sample_plugin))).
    by vm_compute.
  - apply (proj1 (proj2 (getBandwidthToNameMap_outcome
                           (plugin_of_manifest
                              [DescObject (AttrsObject (Some "720p") (Some 2000000));
                               DescNull])))).
    + reflexivity.
    + exists DescNull. split; [|reflexivity]. right. left.
  - apply (proj2 (proj2 (getBandwidthToNameMap_outcome sample_plugin))).
    by vm_compute.
Defined.

Lemma with_catalog_returned names this this' :
  getBandwidthToNameMap this = inr (names, this') → with_catalog this = this'.
Proof. unfold with_catalog. by intros ->. Qed.

Lemma with_catalog_cached names this :
  bandwidthToNameMap this = Some names → with_catalog this = this.
Proof.
  intros Hcache. unfold with_catalog, getBandwidthToNameMap. by rewrite Hcache.
Qed.

Lemma with_catalog_idemp this : with_catalog (with_catalog this) = with_catalog this.
Proof.
  destruct (getBandwidthToNameMap this) as [e|[names this']] eqn:Hget.
  - assert (with_catalog this = this) as Hsame.
    { unfold with_catalog. by rewrite Hget. }
    by rewrite !Hsame.
  - rewrite (with_catalog_returned names this this') by done.
    apply getBandwidthToNameMap_returned in Hget as [Hcache _].
    by apply (with_catalog_cached names).
Qed.

Lemma getBandwidthToNameMap_with_catalog names this this' :
  getBandwidthToNameMap this = inr (names, this') →
  getBandwidthToNameMap this' = inr (names, this').
Proof.
  intros Hget.
  apply getBandwidthToNameMap_returned in Hget as [Hcache _].
  unfold getBandwidthToNameMap. by rewrite Hcache.
Qed.

(** ** Quality metadata *)

Lemma getQualityMeta_falsy item this :
  falsy_geometry item = true →
  getQualityMeta item this
  = match getBandwidthToNameMap this with
    | inl e => inl e
    | inr (names, this') =>
        inr ({| label := of_name (default None (names !! catalog_key item));
                value := of_field (bandwidth item);
                selected := None |}, this')
    end.
Proof.
  unfold falsy_geometry, getQualityMeta. intros ->.
  unfold mbind, M_bind.
  destruct (getBandwidthToNameMap this) as [|[names this']]; [done|].
  unfold mret, M_ret, lookup_name, catalog_key. do 4 f_equal.
  destruct (bandwidth item) as [b|]; simpl; [|done]. by destruct (b =? 0).
Qed.

Lemma getQualityMeta_geometry item this :
  falsy_geometry item = false →
  getQualityMeta item this
  = inr ({| label := VStr (toString (of_field (pixels (width item) (height item))) +:+ "p");
            value := of_field (bandwidth item);
            selected := None |}, this).
Proof. unfold falsy_geometry, getQualityMeta. by intros ->. Qed.

Lemma getQualityMeta_throws item this :
  getQualityMeta item this = inl TypeError
  ↔ falsy_geometry item = true
    ∧ bandwidthToNameMap this = None
    ∧ ∃ playlist,
        playlist ∈ getMasterPlaylists this ∧ wellformed playlist = false.
Proof.
  destruct (falsy_geometry item) eqn:Hitem.
  - rewrite getQualityMeta_falsy by done.
    rewrite <- (getBandwidthToNameMap_throws this).
    destruct (getBandwidthToNameMap this) as [[]|[names this1]].
    + by split.
    + split; [done|by intros [_ ?]].
  - rewrite getQualityMeta_geometry by done.
    split; [done|]. by intros [? _].
Qed.

Lemma getQualityMeta_returned item this meta this' :
  getQualityMeta item this = inr (meta, this') →
  value meta = of_field (bandwidth item)
  ∧ selected meta = None
  ∧ this' = if falsy_geometry item then with_catalog this else this.
Proof.
  destruct (falsy_geometry item) eqn:Hitem.
  - rewrite getQualityMeta_falsy by done. unfold with_catalog.
    destruct (getBandwidthToNameMap this) as [|[names this1]]; [done|].
    by intros [= <- <-].
  - rewrite getQualityMeta_geometry by done. by intros [= <- <-].
Qed.

(** How [getQualityMeta] ends for a rendition object.  One with usable
    geometry makes it return with the plugin as it was, whatever the
    manifest holds; so does any rendition once a catalog is cached.  One
    without usable geometry makes it throw when nothing is cached and the
    manifest list has a [null] description or attributes.  Whenever it
    returns, the value is the rendition's bandwidth, no [selected] flag is
    set, and the plugin is as before, except that a rendition without
    usable geometry leaves the catalog cached. *)
Theorem getQualityMeta_outcome item this :
  (falsy_geometry item = false →
   ∃ meta, getQualityMeta item this = inr (meta, this))
  ∧ (∀ names,
       bandwidthToNameMap this = Some names →
       ∃ meta, getQualityMeta item this = inr (meta, this))
  ∧ (falsy_geometry item = true →
     bandwidthToNameMap this = None →
     (∃ playlist,
        playlist ∈ getMasterPlaylists this ∧ wellformed playlist = false) →
     getQualityMeta item this = inl TypeError)
  ∧ (∀ meta this',
       getQualityMeta item this = inr (meta, this') →
       value meta = of_field (bandwidth item)
       ∧ selected meta = None
       ∧ this' = if falsy_geometry item then with_catalog this else this).
Proof.
  split; [|split; [|split]].
  - intros Hitem. rewrite getQualityMeta_geometry by done. by eexists.
  - intros names Hcache. destruct (falsy_geometry item) eqn:Hitem.
    + rewrite getQualityMeta_falsy by done.
      unfold getBandwidthToNameMap. rewrite Hcache. by eexists.
    + rewrite getQualityMeta_geometry by done. by eexists.
  - intros Hitem Hcache Hnull. by apply getQualityMeta_throws.
  - intros meta this'. apply getQualityMeta_returned.
Qed.

Lemma getQualityMeta_outcome_witness :
  (∃ meta,
     getQualityMeta (rendition (Some 1280) (Some 720) (Some 2000000))
       (plugin_of_manifest [DescNull])
     = inr (meta, plugin_of_manifest [DescNull]))
  ∧ (∃ meta,
       getQualityMeta (rendition None None (Some 2000000))
         (with_catalog sample_plugin)
       = inr (meta, with_catalog sample_plugin))
  ∧ getQualityMeta (rendition None None (Some 2000000))
      (plugin_of_manifest [DescNull])
    = inl TypeError
  ∧ value {| label := VStr "720p"; value := VNum 2000000; selected := None |}
    = of_field (bandwidth (rendition None None (Some 2000000)))
  ∧ selected {| label := VStr "720p"; value := VNum 2000000; selected := None |}
    = None
  ∧ with_catalog sample_plugin
    = if falsy_geometry (rendition None None (Some 2000000))
      then with_catalog sample_plugin else sample_plugin.
Proof.
  split; [|split; [|split]].
  - apply (proj1 (getQualityMeta_outcome
                    (rendition (Some 1280) (Some 720) (Some 2000000))
                    (plugin_of_manifest [DescNull]))).
    reflexivity.
  - apply (proj1 (proj2 (getQualityMeta_outcome
                           (rendition None None (Some 2000000))
                           (with_catalog sample_plugin)))
             {["2000000" := Some "720p"]}).
    by vm_compute.
  - apply (proj1 (proj2 (proj2 (getQualityMeta_outcome
                                  (rendition None None (Some 2000000))
                                  (plugin_of_manifest [DescNull]))))).
    + reflexivity.
    + reflexivity.
    + exists DescNull. split; [left|reflexivity].
  - apply (proj2 (proj2 (proj2 (getQualityMeta_outcome
                                  (rendition None None (Some 2000000))
                                  sample_plugin)))).
    by vm_compute.
Defined.

Lemma getQualityMeta_with_catalog item this :
  returned (getQualityMeta item (with_catalog this))
  = returned (getQualityMeta item this).
Proof.
  destruct (getBandwidthToNameMap this) as [e|[names this1]] eqn:Hget.
  - unfold with_catalog. by rewrite Hget.
  - rewrite (with_catalog_returned names this this1) by done.
    destruct (falsy_geometry item) eqn:Hitem.
    + rewrite !getQualityMeta_falsy by done.
      by rewrite (getBandwidthToNameMap_with_catalog names this this1), Hget.
    + by rewrite !getQualityMeta_geometry.
Qed.

Lemma getQualityMeta_again item this meta this' :
  getQualityMeta item this = inr (meta, this') →
  getQualityMeta item this' = inr (meta, this').
Proof.
  destruct (falsy_geometry item) eqn:Hitem.
  - rewrite getQualityMeta_falsy by done.
    destruct (getBandwidthToNameMap this) as [|[names this1]] eqn:Hget; [done|].
    intros [= <- <-].
    by rewrite getQualityMeta_falsy,
      (getBandwidthToNameMap_with_catalog _ _ _ Hget).
  - rewrite getQualityMeta_geometry by done. intros [= <- <-].
    by rewrite getQualityMeta_geometry.
Qed.

Lemma getQualityMeta_after item this meta this' item' :
  getQualityMeta item this = inr (meta, this') →
  returned (getQualityMeta item' this') = returned (getQualityMeta item' this).
Proof.
  intros Hmeta. apply getQualityMeta_returned in Hmeta as (_ & _ & ->).
  destruct (falsy_geometry item); [|done].
  apply getQualityMeta_with_catalog.
Qed.

(** Examining a rendition does not change what [getQualityMeta] returns
    for any rendition afterwards, and a second look at the same rendition
    changes nothing any more. *)
Theorem getQualityMeta_stable item this meta this' :
  getQualityMeta item this = inr (meta, this') →
  getQualityMeta item this' = inr (meta, this')
  ∧ ∀ item', returned (getQualityMeta item' this')
             = returned (getQualityMeta item' this).
Proof.
  intros Hmeta. split.
  - by apply (getQualityMeta_again item this).
  - intros item'. by apply (getQualityMeta_after item this meta this').
Qed.

Lemma getQualityMeta_stable_witness :
  getQualityMeta (rendition None None (Some 2000000)) (with_catalog sample_plugin)
  = inr ({| label := VStr "720p"; value := VNum 2000000; selected := None |},
         with_catalog sample_plugin)
  ∧ ∀ item', returned (getQualityMeta item' (with_catalog sample_plugin))
             = returned (getQualityMeta item' sample_plugin).
Proof.
  apply (getQualityMeta_stable (rendition None None (Some 2000000)) sample_plugin).
  by vm_compute.
Defined.

Lemma forallb_wellformed_app l1 l2 :
  forallb wellformed (l1 ++ l2) = true
  ↔ forallb wellformed l1 = true ∧ forallb wellformed l2 = true.
Proof. by rewrite forallb_app, andb_true_iff. Qed.

(** A rendition without usable geometry is labelled with the [NAME] of the
    last manifest description that carries its catalog key: a later
    description overwrites what an earlier one wrote. *)
Theorem getQualityMeta_named_by_last item this before NAME BANDWIDTH after :
  falsy_geometry item = true →
  bandwidthToNameMap this = None →
  getMasterPlaylists this
  = before ++ DescObject (AttrsObject NAME BANDWIDTH) :: after →
  forallb wellformed (before ++ after) = true →
  toString (of_field BANDWIDTH) = catalog_key item →
  (∀ playlist, playlist ∈ after → ¬ writes (catalog_key item) playlist) →
  ∃ this',
    getQualityMeta item this
    = inr ({| label := of_name NAME;
              value := of_field (bandwidth item);
              selected := None |}, this').
Proof.
  intros Hitem Hcache Hmanifest [Hbefore Hafter]%forallb_wellformed_app Hkey Hlast.
  rewrite getQualityMeta_falsy by done.
  unfold getBandwidthToNameMap. rewrite Hcache, Hmanifest, reduce_app.
  destruct (reduce_wellformed before ∅ Hbefore) as [names1 ->]. simpl.
  destruct (reduce_wellformed after (<[toString (of_field BANDWIDTH):=NAME]> names1)
              Hafter) as [names Hnames].
  rewrite Hnames. eexists. do 3 f_equal.
  rewrite (reduce_no_write _ _ _ _ Hlast Hnames), <- Hkey.
  by rewrite lookup_insert_eq.
Qed.

Lemma getQualityMeta_named_by_last_witness :
  ∃ this',
    getQualityMeta (rendition None None (Some 2000000))
      (plugin_of_manifest
         [DescObject (AttrsObject (Some "first") (Some 2000000));
          DescObject (AttrsObject (Some "second") (Some 2000000));
          DescObject (AttrsObject (Some "other") (Some 5000000))])
    = inr ({| label := VStr "second"; value := VNum 2000000; selected := None |},
           this').
Proof.
  apply (getQualityMeta_named_by_last (rendition None None (Some 2000000)) _
           [DescObject (AttrsObject (Some "first") (Some 2000000))]
           (Some "second") (Some 2000000)
           [DescObject (AttrsObject (Some "other") (Some 5000000))]);
    [reflexivity..|].
  intros playlist ->%list_elem_of_singleton (NAME & BANDWIDTH & [= _ <-] & Hkey).
  by vm_compute in Hkey.
Defined.

(** A rendition without usable geometry whose catalog key no description
    of a well-formed manifest carries (an empty or absent manifest is one
    such) gets the label [undefined]; nothing is thrown. *)
Theorem getQualityMeta_unnamed item this :
  falsy_geometry item = true →
  bandwidthToNameMap this = None →
  forallb wellformed (getMasterPlaylists this) = true →
  (∀ playlist,
     playlist ∈ getMasterPlaylists this → ¬ writes (catalog_key item) playlist) →
  ∃ this',
    getQualityMeta item this
    = inr ({| label := VUndef;
              value := of_field (bandwidth item);
              selected := None |}, this').
Proof.
  intros Hitem Hcache Hwf Hmiss.
  rewrite getQualityMeta_falsy by done.
  unfold getBandwidthToNameMap. rewrite Hcache.
  destruct (reduce_wellformed _ ∅ Hwf) as [names Hnames].
  rewrite Hnames. eexists. do 3 f_equal.
  by rewrite (reduce_no_write _ _ _ _ Hmiss Hnames), lookup_empty.
Qed.

Lemma getQualityMeta_unnamed_witness :
  ∃ this',
    getQualityMeta (rendition None None (Some 2000000))
      (constructor {| playlists := PlaylistsUndefined;
                      qualityLevels := [];
                      localize := λ s, s |}
                   {| displayCurrentQuality := false |})
    = inr ({| label := VUndef; value := VNum 2000000; selected := None |}, this').
Proof.
  apply (getQualityMeta_unnamed (rendition None None (Some 2000000)));
    [reflexivity..|].
  by intros playlist ?%elem_of_nil.
Defined.

Lemma getQualityMeta_on_with_catalog item this meta this1 :
  getQualityMeta item this = inr (meta, this1) →
  getQualityMeta item (with_catalog this) = inr (meta, with_catalog this).
Proof.
  intros Hmeta. destruct (falsy_geometry item) eqn:Hitem.
  - pose proof (getQualityMeta_again item this meta this1 Hmeta) as Hagain.
    apply getQualityMeta_returned in Hmeta as (_ & _ & ->).
    by rewrite Hitem in Hagain.
  - rewrite getQualityMeta_geometry in Hmeta |- * by done.
    by injection Hmeta as <- _.
Qed.

(** ** The loop of [getLevelItems] *)

Lemma getLevelItems_loop_final levels items this items' this' :
  getLevelItems_loop levels items this = inr (items', this') →
  this' = if existsb falsy_geometry levels then with_catalog this else this.
Proof.
  revert items this. induction levels as [|level levels IH]; intros items this; simpl.
  - by intros [= _ <-].
  - unfold mbind, M_bind.
    destruct (getQualityMeta level this) as [|[meta this1]] eqn:Hmeta; [done|].
    apply getQualityMeta_returned in Hmeta as (_ & _ & ->).
    intros ->%IH.
    destruct (falsy_geometry level); simpl; [|done].
    rewrite with_catalog_idemp. by destruct (existsb _ _).
Qed.

Lemma getLevelItems_loop_with_catalog levels items this items' this' :
  getLevelItems_loop levels items this = inr (items', this') →
  getLevelItems_loop levels items (with_catalog this)
  = inr (items', with_catalog this).
Proof.
  revert items this. induction levels as [|level levels IH]; intros items this; simpl.
  - by intros [= <- _].
  - unfold mbind, M_bind.
    destruct (getQualityMeta level this) as [|[meta this1]] eqn:Hmeta; [done|].
    rewrite (getQualityMeta_on_with_catalog level this meta this1 Hmeta).
    apply getQualityMeta_returned in Hmeta as (_ & _ & ->).
    intros Hloop. destruct (falsy_geometry level).
    + apply IH in Hloop. by rewrite with_catalog_idemp in Hloop.
    + by apply IH in Hloop.
Qed.

Lemma getLevelItems_loop_rerun levels items this items' this' :
  getLevelItems_loop levels items this = inr (items', this') →
  getLevelItems_loop levels items this' = inr (items', this').
Proof.
  intros Hloop. pose proof (getLevelItems_loop_final _ _ _ _ _ Hloop) as Hfinal.
  destruct (existsb _ _); subst this'; [|done].
  by eapply getLevelItems_loop_with_catalog.
Qed.

Lemma getLevelItems_loop_throws levels items this :
  getLevelItems_loop levels items this = inl TypeError
  ↔ existsb falsy_geometry levels = true
    ∧ getBandwidthToNameMap this = inl TypeError.
Proof.
  revert items this. induction levels as [|level levels IH]; intros items this; simpl.
  - split; [done|by intros [? _]].
  - unfold mbind, M_bind. destruct (falsy_geometry level) eqn:Hlevel; simpl.
    + rewrite getQualityMeta_falsy by done.
      destruct (getBandwidthToNameMap this) as [[]|[names this1]] eqn:Hget.
      * by split.
      * rewrite IH, (getBandwidthToNameMap_with_catalog names this this1 Hget).
        split; [by intros [_ ?]|by intros [_ ?]].
    + rewrite getQualityMeta_geometry by done. apply IH.
Qed.

(** ** Methods under a change of the rest of the plugin *)

Section commute.
Context (f : HlsQualitySelectorPlugin → HlsQualitySelectorPlugin).
Hypothesis f_cache : ∀ this, bandwidthToNameMap (f this) = bandwidthToNameMap this.
Hypothesis f_manifest : ∀ this, getMasterPlaylists (f this) = getMasterPlaylists this.
Hypothesis f_set :
  ∀ names this,
    f (set_bandwidthToNameMap names this) = set_bandwidthToNameMap names (f this).

Lemma getBandwidthToNameMap_commute this :
  getBandwidthToNameMap (f this) = lift_state f (getBandwidthToNameMap this).
Proof.
  unfold getBandwidthToNameMap. rewrite f_cache, f_manifest.
  destruct (bandwidthToNameMap this); [done|].
  destruct (reduce _ _ _); simpl; [done|]. by rewrite f_set.
Qed.

Lemma getQualityMeta_commute item this :
  getQualityMeta item (f this) = lift_state f (getQualityMeta item this).
Proof.
  destruct (falsy_geometry item) eqn:Hitem.
  - rewrite !getQualityMeta_falsy, getBandwidthToNameMap_commute by done.
    by destruct (getBandwidthToNameMap this) as [|[names this1]].
  - by rewrite !getQualityMeta_geometry.
Qed.

Lemma getLevelItems_loop_commute levels items this :
  getLevelItems_loop levels items (f this)
  = lift_state f (getLevelItems_loop levels items this).
Proof.
  revert items this. induction levels as [|level levels IH]; intros items this; simpl.
  - done.
  - unfold mbind, M_bind. rewrite getQualityMeta_commute.
    destruct (getQualityMeta level this) as [|[meta this1]]; [done|]. simpl.
    apply IH.
Qed.

Lemma getLevelItems_commute levels this :
  getLevelItems levels (f this) = lift_state f (getLevelItems levels this).
Proof.
  unfold getLevelItems, mbind, M_bind. rewrite getLevelItems_loop_commute.
  by destruct (getLevelItems_loop levels [] this) as [|[items this1]].
Qed.
End commute.

(** ** Rendition-discovery events *)

Lemma existsb_falsy_geometry levels :
  existsb falsy_geometry levels = true
  ↔ ∃ level, level ∈ levels ∧ falsy_geometry level = true.
Proof.
  rewrite existsb_exists. by setoid_rewrite list_elem_of_In.
Qed.

Lemma getLevelItems_throws levels this :
  getLevelItems levels this = inl TypeError
  ↔ existsb falsy_geometry levels = true
    ∧ getBandwidthToNameMap this = inl TypeError.
Proof.
  rewrite <- (getLevelItems_loop_throws levels [] this).
  unfold getLevelItems, mbind, M_bind.
  by destruct (getLevelItems_loop levels [] this) as [[]|[items this1]].
Qed.

Lemma getLevelItems_final levels this levelItems this' :
  getLevelItems levels this = inr (levelItems, this') →
  this' = if existsb falsy_geometry levels then with_catalog this else this.
Proof.
  unfold getLevelItems, mbind, M_bind.
  destruct (getLevelItems_loop levels [] this) as [|[items this1]] eqn:Hloop; [done|].
  intros [= _ <-]. by eapply getLevelItems_loop_final.
Qed.

Lemma getLevelItems_rerun levels this levelItems this' :
  getLevelItems levels this = inr (levelItems, this') →
  getLevelItems levels this' = inr (levelItems, this').
Proof.
  unfold getLevelItems, mbind, M_bind.
  destruct (getLevelItems_loop levels [] this) as [|[items this1]] eqn:Hloop; [done|].
  intros [= <- <-]. by rewrite (getLevelItems_loop_rerun _ _ _ _ _ Hloop).
Qed.

Lemma with_catalog_same this : same_but_catalog this (with_catalog this).
Proof.
  unfold with_catalog.
  destruct (getBandwidthToNameMap this) as [|[names this']] eqn:Hget.
  - apply same_but_catalog_refl.
  - by apply getBandwidthToNameMap_returned in Hget as [_ ?].
Qed.

(** Whether a rendition-discovery event throws, for a list of rendition
    objects.  When every rendition has usable geometry (an empty list
    included) it returns and leaves the catalog cache as it was, whatever
    the manifest holds: renditions with geometry never make it read the
    manifest.  It also returns whenever a catalog is cached.  It throws
    when some rendition has no usable geometry, nothing is cached and the
    manifest list has a [null] description or attributes. *)
Theorem onAddQualityLevel_throws this :
  (Forall (λ level, falsy_geometry level = false) (qualityLevels (player this)) →
   ∃ this',
     onAddQualityLevel this = inr (tt, this')
     ∧ bandwidthToNameMap this' = bandwidthToNameMap this)
  ∧ (∀ names,
       bandwidthToNameMap this = Some names →
       ∃ this', onAddQualityLevel this = inr (tt, this'))
  ∧ ((∃ level,
        level ∈ qualityLevels (player this) ∧ falsy_geometry level = true) →
     bandwidthToNameMap this = None →
     (∃ playlist,
        playlist ∈ getMasterPlaylists this ∧ wellformed playlist = false) →
     onAddQualityLevel this = inl TypeError).
Proof.
  split; [|split].
  - intros Hlevels.
    assert (existsb falsy_geometry (qualityLevels (player this)) = false) as Hnone.
    { apply not_true_is_false. rewrite existsb_falsy_geometry.
      intros (level & Hlevel & Hfalsy). rewrite Forall_forall in Hlevels.
      by rewrite (Hlevels level Hlevel) in Hfalsy. }
    unfold onAddQualityLevel.
    destruct (getLevelItems _ this) as [[]|[levelItems this1]] eqn:Hget.
    + apply getLevelItems_throws in Hget as [Hsome _]. by rewrite Hnone in Hsome.
    + apply getLevelItems_final in Hget. rewrite Hnone in Hget. subst this1.
      by eexists.
  - intros names Hcache. unfold onAddQualityLevel.
    destruct (getLevelItems _ this) as [[]|[levelItems this1]] eqn:Hget.
    + apply getLevelItems_throws in Hget as [_ Hthrows].
      apply getBandwidthToNameMap_throws in Hthrows as [Hnone _]. congruence.
    + by eexists.
  - intros Hlevel Hcache Hnull. unfold onAddQualityLevel.
    assert (getLevelItems (qualityLevels (player this)) this = inl TypeError) as ->.
    { apply getLevelItems_throws. split.
      - by apply existsb_falsy_geometry.
      - by apply getBandwidthToNameMap_throws. }
    done.
Qed.

Lemma onAddQualityLevel_throws_witness :
  (∃ this',
     onAddQualityLevel (set_playlists (PlaylistsFlat [DescNull]) sample_plugin)
     = inr (tt, this')
     ∧ bandwidthToNameMap this'
       = bandwidthToNameMap (set_playlists (PlaylistsFlat [DescNull]) sample_plugin))
  ∧ (∃ this',
       onAddQualityLevel
         (set_qualityLevels [rendition None None (Some 2000000)]
            (with_catalog sample_plugin))
       = inr (tt, this'))
  ∧ onAddQualityLevel
      (set_qualityLevels [rendition None None (Some 2000000)]
         (set_playlists (PlaylistsFlat [DescNull]) sample_plugin))
    = inl TypeError.
Proof.
  split; [|split].
  - apply (proj1 (onAddQualityLevel_throws
                    (set_playlists (PlaylistsFlat [DescNull]) sample_plugin))).
    by repeat constructor.
  - apply (proj1 (proj2 (onAddQualityLevel_throws
                           (set_qualityLevels [rendition None None (Some 2000000)]
                              (with_catalog sample_plugin))))
             {["2000000" := Some "720p"]}).
    by vm_compute.
  - apply (proj2 (proj2 (onAddQualityLevel_throws
                           (set_qualityLevels [rendition None None (Some 2000000)]
                              (set_playlists (PlaylistsFlat [DescNull])
                                 sample_plugin))))).
    + exists (rendition None None (Some 2000000)). split; [left|reflexivity].
    + reflexivity.
    + exists DescNull. split; [left|reflexivity].
Defined.

(** A rendition-discovery event that returns has replaced the button's
    entry list and, when a rendition without usable geometry made it build
    the catalog, filled the cache; the engine's rendition list, the
    options, the current quality and the button's text and pressed state
    are as before. *)
Theorem onAddQualityLevel_frame this this' :
  onAddQualityLevel this = inr (tt, this') →
  player this' = player this
  ∧ config this' = config this
  ∧ _currentQuality this' = _currentQuality this
  ∧ innerHTML (_qualityButton this') = innerHTML (_qualityButton this)
  ∧ pressed (_qualityButton this') = pressed (_qualityButton this)
  ∧ bandwidthToNameMap this'
    = bandwidthToNameMap
        (if existsb falsy_geometry (qualityLevels (player this))
         then with_catalog this else this).
Proof.
  unfold onAddQualityLevel.
  destruct (getLevelItems _ this) as [|[levelItems this1]] eqn:Hget; [done|].
  apply getLevelItems_final in Hget. intros [= <-]. simpl.
  assert (same_but_catalog this this1) as (-> & -> & -> & ->).
  { subst this1. destruct (existsb _ _);
      auto using with_catalog_same, same_but_catalog_refl. }
  by rewrite Hget.
Qed.

Lemma onAddQualityLevel_frame_witness :
  ∃ this',
    onAddQualityLevel sample_plugin = inr (tt, this')
    ∧ player this' = player sample_plugin
    ∧ config this' = config sample_plugin
    ∧ _currentQuality this' = _currentQuality sample_plugin
    ∧ innerHTML (_qualityButton this') = innerHTML (_qualityButton sample_plugin)
    ∧ pressed (_qualityButton this') = pressed (_qualityButton sample_plugin)
    ∧ bandwidthToNameMap this'
      = bandwidthToNameMap
          (if existsb falsy_geometry (qualityLevels (player sample_plugin))
           then with_catalog sample_plugin else sample_plugin).
Proof.
  eexists. split; [by vm_compute|].
  apply (onAddQualityLevel_frame sample_plugin). by vm_compute.
Defined.

(** A second rendition-discovery event on an unchanged rendition list
    installs the same entries and changes nothing. *)
Theorem onAddQualityLevel_idempotent this this' :
  onAddQualityLevel this = inr (tt, this') →
  onAddQualityLevel this' = inr (tt, this').
Proof.
  unfold onAddQualityLevel at 1.
  destruct (getLevelItems _ this) as [|[levelItems this1]] eqn:Hget; [done|].
  intros [= <-].
  pose proof (getLevelItems_rerun _ _ _ _ Hget) as Hrerun.
  assert (player this1 = player this) as Hplayer.
  { apply getLevelItems_final in Hget. subst this1.
    destruct (existsb _ _); [apply with_catalog_same|done]. }
  unfold onAddQualityLevel. simpl. rewrite Hplayer.
  rewrite (getLevelItems_commute (set_qualityButton _)) by done.
  rewrite Hrerun. simpl. done.
Qed.

Lemma onAddQualityLevel_idempotent_witness :
  ∃ this',
    onAddQualityLevel sample_plugin = inr (tt, this')
    ∧ onAddQualityLevel this' = inr (tt, this').
Proof.
  eexists. split; [by vm_compute|].
  apply (onAddQualityLevel_idempotent sample_plugin). by vm_compute.
Defined.

Lemma getLevelItems_one_entry_per_bandwidth_witness :
  ∃ levelItems this',
    getLevelItems
      [rendition (Some 1280) (Some 720) (Some 2000000);
       rendition (Some 1920) (Some 1080) (Some 2000000);
       rendition (Some 1280) (Some 720) (Some 3000000)] sample_plugin
    = inr (levelItems, this')
    ∧ NoDup ((λ entry, value (item entry)) <$> levelItems)
    ∧ (∀ v, v ∈ (λ entry, value (item entry)) <$> levelItems
            ↔ v ∈ (λ level, of_field (bandwidth level))
                  <$> [rendition (Some 1280) (Some 720) (Some 2000000);
                       rendition (Some 1920) (Some 1080) (Some 2000000);
                       rendition (Some 1280) (Some 720) (Some 3000000)]).
Proof.
  apply (getLevelItems_one_entry_per_bandwidth _ sample_plugin).
  right. reflexivity.
Defined.

(** ** First observation wins *)

Lemma first_of_nil this : first_of this [] [].
Proof. by intros k entry ?%elem_of_nil. Qed.

Lemma first_of_app this seen level items :
  first_of this seen items → first_of this (seen ++ [level]) items.
Proof.
  intros Hitems k entry Hin.
  destruct (Hitems k entry Hin) as (i & level' & Hi & Hfirst & Hmeta).
  exists i, level'. split_and!; [|by intros j level'' Hj Hlookup; apply (Hfirst j);
    [|rewrite lookup_app_l in Hlookup by (apply lookup_lt_Some in Hi; lia)]|done].
  by apply lookup_app_l_Some.
Qed.

Lemma first_of_step this seen items level meta :
  returned (getQualityMeta level this) = Some meta →
  items_of seen items →
  first_of this seen items →
  first_of this (seen ++ [level])
    match get items (toString (value meta)) with
    | Some _ => items
    | None =>
        set items (toString (value meta))
          (getQualityMenuItem
             {| label := label meta; value := value meta; selected := None |})
    end.
Proof.
  intros Hmeta (Hnodup & Hkeys & Hvalues) Hfirst.
  destruct (get items _) eqn:Hget; [by apply first_of_app|].
  rewrite set_absent by done.
  intros k entry [Hin|[= -> ->]%list_elem_of_singleton]%elem_of_app.
  { by apply (first_of_app this seen level items Hfirst k entry). }
  destruct (getQualityMeta level this) as [|[meta' this1]] eqn:Hrun; [done|].
  injection Hmeta as ->. pose proof Hrun as Hrun'.
  apply getQualityMeta_returned in Hrun as (Hvalue & Hselected & _).
  exists (length seen), level. split_and!.
  - by rewrite lookup_app_r, Nat.sub_diag.
  - intros j level' Hj Hlookup Hsame.
    rewrite lookup_app_l in Hlookup by done.
    apply get_None in Hget. apply Hget.
    assert (of_field (bandwidth level')
            ∈ (λ entry, value (item entry)) <$> items.*2) as Hin.
    { apply Hvalues, list_elem_of_fmap. exists level'.
      split; [done|]. by eapply list_elem_of_lookup_2. }
    apply list_elem_of_fmap in Hin as (entry & Hentry & Hin).
    apply list_elem_of_fmap in Hin as ([k' entry'] & -> & Hin).
    apply list_elem_of_fmap. exists (k', entry'). split; [|done]. simpl.
    rewrite (Hkeys k' entry' Hin). simpl in Hentry.
    by rewrite Hvalue, <- Hentry, Hsame.
  - rewrite Hrun'. simpl. destruct meta as [l v s]. simpl in *. by subst s.
Qed.

Lemma getLevelItems_loop_first this seen levels items s items' s' :
  s = this ∨ s = with_catalog this →
  items_of seen items →
  first_of this seen items →
  getLevelItems_loop levels items s = inr (items', s') →
  first_of this (seen ++ levels) items'.
Proof.
  revert seen items s.
  induction levels as [|level levels IH]; intros seen items s Hs Hitems Hfirst; simpl.
  - intros [= <- _]. by rewrite app_nil_r.
  - unfold mbind, M_bind.
    destruct (getQualityMeta level s) as [|[meta s1]] eqn:Hmeta; [done|].
    assert (returned (getQualityMeta level this) = Some meta) as Hreturned.
    { destruct Hs as [->| ->]; [by rewrite Hmeta|].
      by rewrite <- getQualityMeta_with_catalog, Hmeta. }
    assert (s1 = this ∨ s1 = with_catalog this) as Hs1.
    { apply getQualityMeta_returned in Hmeta as (_ & _ & ->).
      destruct (falsy_geometry level); [right|done].
      destruct Hs as [->| ->]; [done|apply with_catalog_idemp]. }
    rewrite (cons_middle level), app_assoc.
    apply IH; [done| |by apply first_of_step].
    apply items_of_step; [|done].
    by apply getQualityMeta_returned in Hmeta as (? & _).
Qed.

(** First observation wins: every entry [getLevelItems] returns was made
    from the first rendition of the list that has its bandwidth, and
    carries the label and value [getQualityMeta] gives that rendition. *)
Theorem getLevelItems_first_wins levels this levelItems this' entry :
  getLevelItems levels this = inr (levelItems, this') →
  entry ∈ levelItems →
  ∃ (i : nat) level,
    levels !! i = Some level
    ∧ (∀ (j : nat) level',
         (j < i)%nat → levels !! j = Some level' →
         bandwidth level' ≠ bandwidth level)
    ∧ returned (getQualityMeta level this) = Some (item entry).
Proof.
  unfold getLevelItems, mbind, M_bind.
  destruct (getLevelItems_loop levels [] this) as [|[items this1]] eqn:Hloop; [done|].
  intros [= <- _] (k & _ & Hget)%list_elem_of_omap.
  apply get_elem_of_pair in Hget.
  by apply (getLevelItems_loop_first this [] levels [] this items this1
              (or_introl eq_refl) items_of_nil (first_of_nil this) Hloop k entry).
Qed.

Lemma getLevelItems_first_wins_witness :
  ∃ (i : nat) level,
    [rendition (Some 1280) (Some 720) (Some 2000000);
     rendition (Some 1920) (Some 1080) (Some 2000000)] !! i = Some level
    ∧ (∀ (j : nat) level',
         (j < i)%nat →
         [rendition (Some 1280) (Some 720) (Some 2000000);
          rendition (Some 1920) (Some 1080) (Some 2000000)] !! j = Some level' →
         bandwidth level' ≠ bandwidth level)
    ∧ returned (getQualityMeta level sample_plugin)
      = Some {| label := VStr "720p"; value := VNum 2000000; selected := None |}.
Proof.
  apply (getLevelItems_first_wins
           [rendition (Some 1280) (Some 720) (Some 2000000);
            rendition (Some 1920) (Some 1080) (Some 2000000)]
           sample_plugin
           [getQualityMenuItem
              {| label := VStr "720p"; value := VNum 2000000; selected := None |}]
           sample_plugin
           (getQualityMenuItem
              {| label := VStr "720p"; value := VNum 2000000; selected := None |})).
  - by vm_compute.
  - by left.
Defined.

(** ** Selections *)

(** Only the last selection counts: [setQuality] after another
    [setQuality] leaves the plugin exactly as [setQuality] alone would. *)
Theorem setQuality_last_wins quality1 quality2 this :
  setQuality quality2 (setQuality quality1 this) = setQuality quality2 this.
Proof.
  destruct this as [[pl levels loc] [display] cache button current].
  unfold setQuality; simpl. destruct display; simpl.
  - unfold unpressButton, set_qualityLevels, setButtonInnerText,
      set_qualityButton, set_currentQuality; simpl.
    rewrite <- list_fmap_compose. do 2 f_equal.
  - unfold unpressButton, set_qualityLevels, set_qualityButton,
      set_currentQuality; simpl.
    rewrite <- list_fmap_compose. do 2 f_equal.
Qed.

Lemma setQuality_cache quality this :
  bandwidthToNameMap (setQuality quality this) = bandwidthToNameMap this.
Proof. unfold setQuality. by destruct (displayCurrentQuality _). Qed.

Lemma setQuality_manifest quality this :
  getMasterPlaylists (setQuality quality this) = getMasterPlaylists this.
Proof. unfold setQuality. by destruct (displayCurrentQuality _). Qed.

Lemma setQuality_commute_cache quality names this :
  setQuality quality (set_bandwidthToNameMap names this)
  = set_bandwidthToNameMap names (setQuality quality this).
Proof. unfold setQuality; simpl. by destruct (displayCurrentQuality _). Qed.

Lemma getLevelItems_loop_setEnabled quality levels items this :
  getLevelItems_loop (setEnabled quality <$> levels) items this
  = getLevelItems_loop levels items this.
Proof.
  revert items this. induction levels as [|level levels IH]; intros items this;
    [done|].
  rewrite fmap_cons. simpl. unfold mbind, M_bind.
  change (getQualityMeta (setEnabled quality level) this)
    with (getQualityMeta level this).
  destruct (getQualityMeta level this) as [|[meta this1]]; [done|]. apply IH.
Qed.

Lemma getLevelItems_setEnabled quality levels this :
  getLevelItems (setEnabled quality <$> levels) this = getLevelItems levels this.
Proof.
  unfold getLevelItems, mbind, M_bind.
  by rewrite getLevelItems_loop_setEnabled.
Qed.

(** A selection and a rendition-discovery event do not interfere: the
    event installs the same entries whether [setQuality] ran before it or
    runs after it, and the plugin ends up the same. *)
Theorem onAddQualityLevel_setQuality_commute quality this this' :
  onAddQualityLevel this = inr (tt, this') →
  onAddQualityLevel (setQuality quality this)
  = inr (tt, setQuality quality this').
Proof.
  unfold onAddQualityLevel.
  destruct (getLevelItems _ this) as [|[levelItems this1]] eqn:Hget; [done|].
  intros [= <-]. rewrite setQuality_qualityLevels, getLevelItems_setEnabled.
  rewrite (getLevelItems_commute (setQuality quality))
    by auto using setQuality_cache, setQuality_manifest, setQuality_commute_cache.
  rewrite Hget. simpl. do 2 f_equal.
  unfold setQuality; simpl. by destruct (displayCurrentQuality _).
Qed.

Lemma onAddQualityLevel_setQuality_commute_witness :
  ∃ this',
    onAddQualityLevel sample_plugin = inr (tt, this')
    ∧ onAddQualityLevel (setQuality (VNum 540) sample_plugin)
      = inr (tt, setQuality (VNum 540) this').
Proof.
  eexists. split; [by vm_compute|].
  apply (onAddQualityLevel_setQuality_commute (VNum 540) sample_plugin).
  by vm_compute.
Defined.

Lemma getLevelItems_entry_bandwidth levels this levelItems this' entry :
  getLevelItems levels this = inr (levelItems, this') →
  entry ∈ levelItems →
  ∃ level, level ∈ levels ∧ value (item entry) = of_field (bandwidth level).
Proof.
  unfold getLevelItems, mbind, M_bind.
  destruct (getLevelItems_loop levels [] this) as [|[items this1]] eqn:Hloop; [done|].
  intros [= <- _] (k & _ & Hget)%list_elem_of_omap.
  apply get_elem_of_pair in Hget.
  destruct (getLevelItems_loop_first this [] levels [] this items this1
              (or_introl eq_refl) items_of_nil (first_of_nil this) Hloop k entry Hget)
    as (i & level & Hi & _ & Hmeta).
  exists level. split; [by eapply list_elem_of_lookup_2|].
  destruct (getQualityMeta level this) as [|[meta this2]] eqn:Hrun; [done|].
  injection Hmeta as <-.
  by apply getQualityMeta_returned in Hrun as (? & _).
Qed.

(** The values the menu hands to [setQuality] are bandwidths, while
    [setQuality] compares with pixel counts: when no rendition's pixel
    count equals a rendition's bandwidth, selecting the value of any
    installed entry other than "Auto" disables every rendition. *)
Theorem select_level_entry_disables_all this this' entry :
  onAddQualityLevel this = inr (tt, this') →
  entry ∈ createItems (_qualityButton this') →
  value (item entry) ≠ VStr "auto" →
  (∀ level level',
     level ∈ qualityLevels (player this) →
     level' ∈ qualityLevels (player this) →
     of_field (pixels (width level) (height level))
     ≠ of_field (bandwidth level')) →
  Forall (λ level, enabled level = false)
    (qualityLevels (player (setQuality (value (item entry)) this'))).
Proof.
  unfold onAddQualityLevel.
  destruct (getLevelItems _ this) as [|[levelItems this1]] eqn:Hget; [done|].
  intros [= <-] Hentry Hauto Hdistinct. simpl in Hentry.
  apply elem_of_app in Hentry as [Hentry| ->%list_elem_of_singleton]; [|done].
  rewrite sort_Permutation in Hentry.
  destruct (getLevelItems_entry_bandwidth _ _ _ _ _ Hget Hentry)
    as (level' & Hlevel' & Hvalue).
  assert (player this1 = player this) as Hplayer.
  { apply getLevelItems_final in Hget. subst this1.
    destruct (existsb _ _); [apply with_catalog_same|done]. }
  rewrite setQuality_qualityLevels. simpl. rewrite Hplayer.
  apply Forall_fmap, Forall_forall. intros level Hlevel.
  change (enabled (setEnabled (value (item entry)) level) = false).
  apply not_true_is_false. rewrite setEnabled_enabled, Hvalue.
  intros [Hmatch|Hmatch]; [exact (Hdistinct level level' Hlevel Hlevel' Hmatch)|].
  by rewrite Hvalue in Hauto.
Qed.

Lemma select_level_entry_disables_all_witness :
  ∃ this',
    onAddQualityLevel sample_plugin = inr (tt, this')
    ∧ Forall (λ level, enabled level = false)
        (qualityLevels (player (setQuality (VNum 1500000) this'))).
Proof.
  eexists. split; [by vm_compute|].
  apply (select_level_entry_disables_all sample_plugin _
           (getQualityMenuItem
              {| label := VStr "540p"; value := VNum 1500000; selected := None |})).
  - by vm_compute.
  - vm_compute. right. by left.
  - done.
  - intros level level' Hlevel Hlevel'.
    repeat (apply elem_of_cons in Hlevel as [-> |Hlevel]);
      [..|by apply elem_of_nil in Hlevel];
      repeat (apply elem_of_cons in Hlevel' as [-> |Hlevel']);
      try (by apply elem_of_nil in Hlevel'); by vm_compute.
Defined.

(** ** Sequences of events *)

Lemma getQualityMeta_cached item names this1 this2 :
  bandwidthToNameMap this1 = Some names →
  bandwidthToNameMap this2 = Some names →
  returned (getQualityMeta item this1) = returned (getQualityMeta item this2).
Proof.
  intros Hcache1 Hcache2. destruct (falsy_geometry item) eqn:Hitem.
  - rewrite !getQualityMeta_falsy by done.
    unfold getBandwidthToNameMap. by rewrite Hcache1, Hcache2.
  - by rewrite !getQualityMeta_geometry.
Qed.

Lemma onAddQualityLevel_cached names this :
  bandwidthToNameMap this = Some names →
  ∃ this',
    onAddQualityLevel this = inr (tt, this')
    ∧ bandwidthToNameMap this' = Some names.
Proof.
  intros Hcache.
  destruct (onAddQualityLevel_returns this) as (levelItems & this' & Hrun & _);
    [left; by rewrite Hcache|].
  exists this'. split; [done|].
  unfold onAddQualityLevel in Hrun.
  destruct (getLevelItems _ this) as [|[levelItems' this1]] eqn:Hget; [done|].
  apply getLevelItems_final in Hget. injection Hrun as <-. simpl.
  subst this1. rewrite (with_catalog_cached names) by done.
  by destruct (existsb _ _).
Qed.

(** Once the catalog is cached it stays: no sequence of rendition-discovery
    events, selections and manifest changes throws or replaces it, and
    [getQualityMeta] keeps giving every rendition the label and value it
    gave before, whatever the manifest has become. *)
Theorem run_cached_catalog names events this :
  bandwidthToNameMap this = Some names →
  ∃ this',
    run events this = inr (tt, this')
    ∧ bandwidthToNameMap this' = Some names
    ∧ ∀ item, returned (getQualityMeta item this')
              = returned (getQualityMeta item this).
Proof.
  revert this. induction events as [|e events IH]; intros this Hcache; simpl.
  - by exists this.
  - unfold mbind, M_bind.
    assert (∃ this1, handle e this = inr (tt, this1)
                     ∧ bandwidthToNameMap this1 = Some names)
      as (this1 & -> & Hcache1).
    { destruct e as [levels|quality|pl]; simpl.
      - by apply onAddQualityLevel_cached.
      - eexists. split; [done|]. by rewrite setQuality_cache.
      - by eexists. }
    destruct (IH this1 Hcache1) as (this' & Hrun & Hcache' & Hmeta).
    exists this'. split_and!; [done..|].
    intros item. rewrite Hmeta. by apply (getQualityMeta_cached item names).
Qed.

Lemma run_cached_catalog_witness :
  ∃ this',
    run [manifest PlaylistsUndefined;
         addqualitylevel [rendition None None (Some 2000000)];
         select (VNum 2000000)] (with_catalog sample_plugin)
    = inr (tt, this')
    ∧ bandwidthToNameMap this' = Some {["2000000" := Some "720p"]}
    ∧ ∀ item, returned (getQualityMeta item this')
              = returned (getQualityMeta item (with_catalog sample_plugin)).
Proof.
  apply (run_cached_catalog {["2000000" := Some "720p"]} _
           (with_catalog sample_plugin)).
  by vm_compute.
Defined.

(** Through any sequence of events that returns, the stored quality is
    the one of the last selection, and the one stored before when nothing
    was selected: rendition-discovery events and manifest changes never
    touch it. *)
Theorem run_currentQuality events this this' :
  run events this = inr (tt, this') →
  _currentQuality this' = default (_currentQuality this) (last_selected events)
  ∧ getCurrentQuality this'
    = logical_or (default (_currentQuality this) (last_selected events))
        (VStr "auto").
Proof.
  intros Hrun. cut (_currentQuality this'
                    = default (_currentQuality this) (last_selected events)).
  { intros Hquality. split; [done|]. unfold getCurrentQuality. by rewrite Hquality. }
  revert this Hrun. induction events as [|e events IH]; intros this; simpl.
  - by intros [= <-].
  - unfold mbind, M_bind.
    destruct (handle e this) as [|[[] this1]] eqn:Hhandle; [done|].
    intros Hrun. rewrite (IH this1 Hrun).
    destruct (last_selected events) as [quality|]; [done|]. simpl.
    destruct e as [levels|quality|pl]; simpl in *.
    + by apply onAddQualityLevel_currentQuality in Hhandle.
    + injection Hhandle as <-. apply setQuality_currentQuality.
    + by injection Hhandle as <-.
Qed.

Lemma run_currentQuality_witness :
  ∃ this',
    run [select (VNum 540);
         addqualitylevel [rendition None None (Some 2000000)];
         manifest PlaylistsUndefined] sample_plugin
    = inr (tt, this')
    ∧ _currentQuality this' = VNum 540
    ∧ getCurrentQuality this' = VNum 540.
Proof.
  eexists. split; [by vm_compute|].
  apply (run_currentQuality
           [select (VNum 540);
            addqualitylevel [rendition None None (Some 2000000)];
            manifest PlaylistsUndefined] sample_plugin).
  by vm_compute.
Defined.

(** ** Property keys and the order of [Object.keys] *)

Lemma digit_of_pretty_N_char d :
  (d < 10)%N → digit_of (pretty_N_char d) = Some d.
Proof.
  intros Hd.
  assert (d = 0 ∨ d = 1 ∨ d = 2 ∨ d = 3 ∨ d = 4 ∨ d = 5 ∨ d = 6 ∨ d = 7
          ∨ d = 8 ∨ d = 9)%N as Hcases by lia.
  repeat (destruct Hcases as [->|Hcases]; [done|]). by subst d.
Qed.

Lemma parse_digits_pretty_N_go x :
  ∃ k : N, ∀ s acc,
    parse_digits (pretty_N_go x s) acc = parse_digits s (acc * 10 ^ k + x)%N.
Proof.
  induction (N.lt_wf_0 x) as [x _ IH].
  assert (x = 0 ∨ 0 < x)%N as [->|Hx] by lia.
  - exists 0%N. intros s acc. rewrite pretty_N_go_0. f_equal. lia.
  - destruct (IH (x `div` 10)%N) as [k Hk]; [by apply N.div_lt|].
    exists (k + 1)%N. intros s acc.
    rewrite pretty_N_go_step, Hk by done. simpl.
    rewrite digit_of_pretty_N_char by (by apply N.mod_lt).
    f_equal. rewrite N.pow_add_r, N.pow_1_r.
    pose proof (N.div_mod x 10). lia.
Qed.

Lemma pretty_N_go_nonempty x s : s ≠ "" → pretty_N_go x s ≠ "".
Proof.
  revert s. induction (N.lt_wf_0 x) as [x _ IH]; intros s Hs.
  assert (x = 0 ∨ 0 < x)%N as [->|Hx] by lia.
  - by rewrite pretty_N_go_0.
  - rewrite pretty_N_go_step by done. apply IH; [by apply N.div_lt|done].
Qed.

Lemma pretty_N_nonempty (n : N) : pretty n ≠ "".
Proof.
  unfold pretty, pretty_N. case_decide; [done|].
  rewrite pretty_N_go_step by lia. by apply pretty_N_go_nonempty.
Qed.

Lemma parse_digits_pretty_N (n : N) : parse_digits (pretty n) 0 = Some n.
Proof.
  unfold pretty, pretty_N. case_decide as Hn; [by subst n|].
  destruct (parse_digits_pretty_N_go n) as [k ->]. simpl. f_equal; lia.
Qed.

(** The decimal form of an integer below [2^32 - 1] is an array index,
    and reads back as that integer. *)
Lemma array_index_pretty_N (n : N) :
  (n < 4294967295)%N → array_index (pretty n) = Some n.
Proof.
  intros Hn. unfold array_index.
  destruct (pretty n) as [|c k] eqn:Hpretty; [by destruct (pretty_N_nonempty n)|].
  rewrite <- Hpretty, parse_digits_pretty_N. simpl.
  rewrite bool_decide_eq_true_2 by done.
  by rewrite (proj2 (N.ltb_lt _ _) Hn).
Qed.

Lemma pretty_Z_of_N (n : N) : pretty (Z.of_N n) = pretty n.
Proof. by destruct n. Qed.

Lemma sort_sorted {A} (comparefn : A → A → Z) l :
  StronglySorted (λ x y, comparefn x y ≤ 0) l → sort comparefn l = l.
Proof.
  induction 1 as [|x l Hl IH Hx]; simpl; [done|].
  rewrite IH. destruct Hx as [|y l' Hy _]; simpl; [done|].
  by rewrite (proj2 (Z.leb_le _ _) Hy).
Qed.

Lemma keys_all_indices {V} (o : object V) :
  Forall (λ k, is_Some (array_index k)) o.*1 →
  keys o = pretty <$> merge_sort N.le (omap array_index o.*1).
Proof.
  intros Ho. unfold keys.
  rewrite (filter_none (λ k, array_index k = None)), app_nil_r.
  - do 2 f_equal. clear Ho. induction o as [|[k v] o IH]; [done|].
    rewrite fmap_cons. simpl. destruct (array_index k); simpl; by f_equal.
  - eapply Forall_impl; [exact Ho|]. by intros k [n ->].
Qed.

Lemma getLevelItems_loop_returned_items_of seen levels items this items' this' :
  getLevelItems_loop levels items this = inr (items', this') →
  items_of seen items →
  items_of (seen ++ levels) items'.
Proof.
  revert seen items this.
  induction levels as [|level levels IH]; intros seen items this; simpl.
  - intros [= <- _]. by rewrite app_nil_r.
  - unfold mbind, M_bind.
    destruct (getQualityMeta level this) as [|[meta this1]] eqn:Hmeta; [done|].
    apply getQualityMeta_value in Hmeta.
    intros Hloop Hitems. rewrite (cons_middle level), app_assoc.
    eapply IH; [done|]. by apply items_of_step.
Qed.

Lemma compareItems_sorted_values entries numbers :
  (λ entry, value (item entry)) <$> entries = VNum <$> numbers →
  StronglySorted Z.le numbers →
  StronglySorted (λ current next, compareItems current next ≤ 0) entries.
Proof.
  revert numbers. induction entries as [|entry entries IH]; intros numbers.
  - constructor.
  - destruct numbers as [|n numbers]; [done|].
    rewrite !fmap_cons. intros [= Hentry Hentries].
    intros [Hsorted Hn]%StronglySorted_inv.
    constructor; [by eapply IH|].
    apply Forall_forall. intros next Hnext.
    assert (value (item next) ∈ VNum <$> numbers) as Hin.
    { rewrite <- Hentries. apply list_elem_of_fmap. by exists next. }
    apply list_elem_of_fmap in Hin as (m & Hm & Hin).
    apply (compareItems_le entry next n m); [done..|].
    rewrite Forall_forall in Hn. by apply Hn.
Qed.

Lemma omap_get_values (items : object ConcreteMenuItem) (l : list N) :
  Forall (λ n, ∃ entry, get items (pretty n) = Some entry
                        ∧ value (item entry) = VNum (Z.of_N n)) l →
  (λ entry, value (item entry)) <$> omap (get items) (pretty <$> l)
  = VNum <$> (Z.of_N <$> l).
Proof.
  induction 1 as [|n l (entry & Hget & Hvalue) _ IH]; [done|].
  rewrite (fmap_cons pretty).
  change (omap (get items) (pretty n :: (pretty <$> l)))
    with (match get items (pretty n) with
          | Some entry' => entry' :: omap (get items) (pretty <$> l)
          | None => omap (get items) (pretty <$> l)
          end).
  by rewrite Hget, !fmap_cons, Hvalue, IH.
Qed.

(** When every bandwidth is an integer from 0 to [2^32 - 2], the entries
    [getLevelItems] returns are already in ascending order of bandwidth,
    whatever the order of the renditions, because [Object.keys] lists
    integer keys in numeric order; the sort of [onAddQualityLevel] then
    leaves the list as it is. *)
Theorem getLevelItems_ascending levels this levelItems this' :
  getLevelItems levels this = inr (levelItems, this') →
  Forall (λ level, ∃ b, bandwidth level = Some b ∧ 0 ≤ b < 4294967295) levels →
  (∃ numbers,
     (λ entry, value (item entry)) <$> levelItems = VNum <$> numbers
     ∧ StronglySorted Z.le numbers)
  ∧ sort compareItems levelItems = levelItems.
Proof.
  unfold getLevelItems, mbind, M_bind.
  destruct (getLevelItems_loop levels [] this) as [|[items this1]] eqn:Hloop; [done|].
  intros [= <- _] Hrange.
  destruct (getLevelItems_loop_returned_items_of [] _ _ _ _ _ Hloop items_of_nil)
    as (Hnodup & Hkeys & Hvalues).
  assert (∀ k entry, (k, entry) ∈ items →
            ∃ n : N, (n < 4294967295)%N ∧ k = pretty n
                     ∧ value (item entry) = VNum (Z.of_N n)) as Hindex.
  { intros k entry Hin.
    assert (value (item entry) ∈ (λ entry, value (item entry)) <$> items.*2) as Hv.
    { apply list_elem_of_fmap. exists entry. split; [done|].
      apply list_elem_of_fmap. by exists (k, entry). }
    apply Hvalues, list_elem_of_fmap in Hv as (level & Hentry & Hlevel).
    rewrite Forall_forall in Hrange.
    destruct (Hrange level Hlevel) as (b & Hb & Hb0 & Hb1).
    rewrite Hb in Hentry. simpl in Hentry.
    exists (Z.to_N b). rewrite Z2N.id by done. split_and!; [lia| |done].
    rewrite (Hkeys k entry Hin), Hentry. simpl.
    by rewrite <- pretty_Z_of_N, Z2N.id. }
  assert (Forall (λ k, is_Some (array_index k)) items.*1) as Hall.
  { apply Forall_forall. intros k ([k' entry] & -> & Hin)%list_elem_of_fmap.
    destruct (Hindex k' entry Hin) as (n & Hn & -> & _).
    exists n. by apply array_index_pretty_N. }
  rewrite (keys_all_indices items Hall).
  set (sorted := merge_sort N.le (omap array_index items.*1)).
  assert (Forall (λ n, ∃ entry, get items (pretty n) = Some entry
                                ∧ value (item entry) = VNum (Z.of_N n)) sorted)
    as Hsorted.
  { apply Forall_forall. intros n Hn. unfold sorted in Hn.
    rewrite merge_sort_Permutation in Hn.
    apply list_elem_of_omap in Hn as (k & Hk & Hn).
    apply array_index_pretty in Hn. subst k.
    apply list_elem_of_fmap in Hk as ([k entry] & Hpretty & Hin). simpl in Hpretty.
    exists entry. split; [rewrite Hpretty; by apply get_Some|].
    destruct (Hindex k entry Hin) as (n' & _ & -> & ->).
    by apply (inj pretty) in Hpretty as ->. }
  pose proof (omap_get_values items sorted Hsorted) as Hnumbers.
  assert (StronglySorted Z.le (Z.of_N <$> sorted)) as Hle.
  { apply (StronglySorted_fmap _ N.le); [intros x y; lia|].
    apply StronglySorted_merge_sort; apply _. }
  split; [by exists (Z.of_N <$> sorted)|].
  apply sort_sorted. by eapply compareItems_sorted_values.
Qed.

Lemma getLevelItems_ascending_witness :
  ∃ levelItems,
    returned (getLevelItems
                [rendition (Some 1920) (Some 1080) (Some 5000000);
                 rendition (Some 640) (Some 360) (Some 800000)] sample_plugin)
    = Some levelItems
    ∧ (∃ numbers,
         (λ entry, value (item entry)) <$> levelItems = VNum <$> numbers
         ∧ StronglySorted Z.le numbers)
    ∧ sort compareItems levelItems = levelItems.
Proof.
  eexists. split; [by vm_compute|].
  apply (getLevelItems_ascending
           [rendition (Some 1920) (Some 1080) (Some 5000000);
            rendition (Some 640) (Some 360) (Some 800000)]
           sample_plugin _ sample_plugin).
  - by vm_compute.
  - repeat constructor; eexists; (split; [reflexivity|lia]).
Defined.

(** ** The button *)






(** ** The order in which the engine lists its renditions *)

Lemma NoDup_fmap_eq {A B} (f : A → B) (l : list A) x y :
  NoDup (f <$> l) → x ∈ l → y ∈ l → f x = f y → x = y.
Proof.
  intros Hnodup (i & Hi)%list_elem_of_lookup (j & Hj)%list_elem_of_lookup Hxy.
  assert (i = j) as ->; [|congruence].
  apply (NoDup_lookup (f <$> l) i j (f x)); [done|..].
  - by rewrite list_lookup_fmap, Hi.
  - by rewrite list_lookup_fmap, Hj, Hxy.
Qed.

Lemma getLevelItems_values levels this levelItems this' :
  getLevelItems levels this = inr (levelItems, this') →
  NoDup ((λ entry, value (item entry)) <$> levelItems)
  ∧ (∀ v, v ∈ (λ entry, value (item entry)) <$> levelItems
          ↔ v ∈ (λ level, of_field (bandwidth level)) <$> levels).
Proof.
  unfold getLevelItems, mbind, M_bind.
  destruct (getLevelItems_loop levels [] this) as [|[items this1]] eqn:Hloop; [done|].
  intros [= <- _].
  destruct (getLevelItems_loop_returned_items_of [] _ _ _ _ _ Hloop items_of_nil)
    as (Hnodup & Hkeys & Hvalues).
  pose proof (keys_items_Permutation items Hnodup) as Hperm.
  split; [rewrite Hperm|by intros v; rewrite Hperm].
  apply (NoDup_fmap_1 toString).
  replace (toString <$> ((λ entry, value (item entry)) <$> items.*2))
    with items.*1; [done|].
  rewrite <- !list_fmap_compose. apply list_fmap_ext.
  intros i [k entry] Hi. simpl. apply Hkeys. by eapply list_elem_of_lookup_2.
Qed.

Lemma getLevelItems_entry_meta levels this levelItems this' entry :
  getLevelItems levels this = inr (levelItems, this') →
  entry ∈ levelItems →
  ∃ level,
    level ∈ levels ∧ returned (getQualityMeta level this) = Some (item entry).
Proof.
  unfold getLevelItems, mbind, M_bind.
  destruct (getLevelItems_loop levels [] this) as [|[items this1]] eqn:Hloop; [done|].
  intros [= <- _] (k & _ & Hget)%list_elem_of_omap.
  apply get_elem_of_pair in Hget.
  destruct (getLevelItems_loop_first this [] levels [] this items this1
              (or_introl eq_refl) items_of_nil (first_of_nil this) Hloop k entry Hget)
    as (i & level & Hi & _ & Hmeta).
  exists level. split; [by eapply list_elem_of_lookup_2|done].
Qed.

Lemma returned_value item this meta :
  returned (getQualityMeta item this) = Some meta →
  value meta = of_field (bandwidth item).
Proof.
  destruct (getQualityMeta item this) as [|[meta' this']] eqn:Hrun; [done|].
  intros [= <-]. by apply getQualityMeta_value in Hrun.
Qed.

Lemma getLevelItems_made_from levels this levelItems this' level :
  getLevelItems levels this = inr (levelItems, this') →
  NoDup (bandwidth <$> levels) →
  level ∈ levels →
  ∃ entry,
    entry ∈ levelItems
    ∧ returned (getQualityMeta level this) = Some (item entry).
Proof.
  intros Hget Hnodup Hlevel.
  destruct (getLevelItems_values _ _ _ _ Hget) as [_ Hvalues].
  assert (of_field (bandwidth level)
          ∈ (λ entry, value (item entry)) <$> levelItems) as Hin.
  { apply Hvalues, list_elem_of_fmap. by exists level. }
  apply list_elem_of_fmap in Hin as (entry & Hvalue & Hentry).
  exists entry. split; [done|].
  destruct (getLevelItems_entry_meta _ _ _ _ _ Hget Hentry)
    as (level' & Hlevel' & Hmeta).
  assert (level' = level) as <-; [|done].
  apply (NoDup_fmap_eq bandwidth levels); [done..|].
  apply returned_value in Hmeta. rewrite <- Hvalue in Hmeta.
  by destruct (bandwidth level'), (bandwidth level); simplify_eq/=.
Qed.

Lemma getLevelItems_Permutation levels1 levels2 this items1 this1 items2 this2 :
  levels1 ≡ₚ levels2 →
  NoDup (bandwidth <$> levels1) →
  getLevelItems levels1 this = inr (items1, this1) →
  getLevelItems levels2 this = inr (items2, this2) →
  items1 ≡ₚ items2.
Proof.
  intros Hperm Hnodup1 Hget1 Hget2.
  assert (NoDup (bandwidth <$> levels2)) as Hnodup2 by by rewrite <- Hperm.
  assert (∀ levels levelItems this',
            getLevelItems levels this = inr (levelItems, this') →
            NoDup levelItems) as Hnodup.
  { intros levels levelItems this' Hget.
    apply (NoDup_fmap_1 (λ entry, value (item entry))).
    by apply (getLevelItems_values _ _ _ _ Hget). }
  assert (∀ levels levels' l l' s s',
            levels ≡ₚ levels' → NoDup (bandwidth <$> levels') →
            getLevelItems levels this = inr (l, s) →
            getLevelItems levels' this = inr (l', s') →
            ∀ entry, entry ∈ l → entry ∈ l') as Hsub.
  { intros levels levels' l l' s s' Hp Hnd Hg Hg' entry Hentry.
    destruct (getLevelItems_entry_meta _ _ _ _ _ Hg Hentry)
      as (level & Hlevel & Hmeta).
    rewrite Hp in Hlevel.
    destruct (getLevelItems_made_from _ _ _ _ _ Hg' Hnd Hlevel)
      as (entry' & Hentry' & Hmeta').
    rewrite Hmeta in Hmeta'. injection Hmeta' as Hitem.
    destruct entry, entry'. simpl in Hitem. by subst. }
  apply NoDup_Permutation; [by eapply Hnodup..|].
  intros entry. split.
  - by eapply Hsub.
  - eapply Hsub; [symmetry; exact Hperm|done..].
Qed.

(** The menu does not depend on the order in which the engine lists its
    renditions: when the renditions have pairwise distinct bandwidths, two
    lists that are permutations of each other give the same entries in the
    same order. *)
Theorem onAddQualityLevel_order_independent this levels1 levels2 :
  catalog_available this →
  levels1 ≡ₚ levels2 →
  NoDup (bandwidth <$> levels1) →
  Forall (λ level, is_Some (bandwidth level)) levels1 →
  ∃ this1 this2,
    onAddQualityLevel (set_qualityLevels levels1 this) = inr (tt, this1)
    ∧ onAddQualityLevel (set_qualityLevels levels2 this) = inr (tt, this2)
    ∧ createItems (_qualityButton this1) = createItems (_qualityButton this2).
Proof.
  intros Hthis Hperm Hnodup Hsome.
  destruct (getLevelItems_returns levels1 this Hthis)
    as (items1 & s1 & Hget1 & Hfrom1 & Hsame1).
  destruct (getLevelItems_returns levels2 this Hthis)
    as (items2 & s2 & Hget2 & Hfrom2 & Hsame2).
  unfold onAddQualityLevel. simpl.
  rewrite !(getLevelItems_commute (set_qualityLevels _)) by done.
  rewrite Hget1, Hget2. simpl.
  do 2 eexists. split_and!; [done..|]. simpl. f_equal.
  - apply (StronglySorted_unique_strong
             (λ current next, compareItems current next ≤ 0)).
    + intros x1 x2 Hx1 Hx2 Hle1 Hle2.
      rewrite sort_Permutation in Hx1, Hx2.
      rewrite <- (getLevelItems_Permutation _ _ _ _ _ _ _ Hperm Hnodup Hget1 Hget2)
        in Hx2.
      rewrite Forall_forall in Hfrom1. rewrite Forall_forall in Hsome.
      destruct (Hfrom1 x1 Hx1) as (l1 & Hl1 & Hv1).
      destruct (Hfrom1 x2 Hx2) as (l2 & Hl2 & Hv2).
      destruct (Hsome l1 Hl1) as [n1 Hn1], (Hsome l2 Hl2) as [n2 Hn2].
      rewrite Hn1 in Hv1. rewrite Hn2 in Hv2. simpl in *.
      apply (compareItems_le x1 x2 n1 n2) in Hle1; [|done..].
      apply (compareItems_le x2 x1 n2 n1) in Hle2; [|done..].
      apply (NoDup_fmap_eq (λ entry, value (item entry)) items1); [|done..|].
      * by apply (getLevelItems_values _ _ _ _ Hget1).
      * rewrite Hv1, Hv2. f_equal. lia.
    + apply sort_compareItems_sorted.
      eapply Forall_impl; [exact Hfrom1|].
      intros entry (level & Hlevel & Hvalue).
      rewrite Forall_forall in Hsome. destruct (Hsome level Hlevel) as [n Hn].
      exists n. by rewrite Hvalue, Hn.
    + apply sort_compareItems_sorted.
      eapply Forall_impl; [exact Hfrom2|].
      intros entry (level & Hlevel & Hvalue).
      rewrite <- Hperm in Hlevel.
      rewrite Forall_forall in Hsome. destruct (Hsome level Hlevel) as [n Hn].
      exists n. by rewrite Hvalue, Hn.
    + rewrite !sort_Permutation.
      by eapply getLevelItems_Permutation.
  - destruct Hsame1 as (Hp1 & _), Hsame2 as (Hp2 & _).
    unfold autoItem. simpl. by rewrite Hp1, Hp2.
Qed.

Lemma onAddQualityLevel_order_independent_witness :
  ∃ this1 this2,
    onAddQualityLevel
      (set_qualityLevels
         [rendition (Some 1920) (Some 1080) (Some 5000000);
          rendition None None (Some 2000000)] sample_plugin)
    = inr (tt, this1)
    ∧ onAddQualityLevel
        (set_qualityLevels
           [rendition None None (Some 2000000);
            rendition (Some 1920) (Some 1080) (Some 5000000)] sample_plugin)
      = inr (tt, this2)
    ∧ createItems (_qualityButton this1) = createItems (_qualityButton this2).
Proof.
  apply (onAddQualityLevel_order_independent sample_plugin).
  - right. reflexivity.
  - apply Permutation_swap.
  - apply (bool_decide_unpack _). by vm_compute.
  - repeat constructor; by eexists.
Defined.

(** ** The menu through sequences of events *)

Lemma onAddQualityLevel_menu this this' :
  onAddQualityLevel this = inr (tt, this') →
  localize (player this') = localize (player this)
  ∧ ends_with_auto (autoItem this) (createItems (_qualityButton this')).
Proof.
  unfold onAddQualityLevel.
  destruct (getLevelItems _ this) as [|[levelItems this1]] eqn:Hget; [done|].
  intros [= <-]. simpl.
  assert (player this1 = player this) as Hplayer.
  { apply getLevelItems_final in Hget. subst this1.
    destruct (existsb _ _); [apply with_catalog_same|done]. }
  rewrite Hplayer. split; [done|].
  replace (autoItem this1) with (autoItem this)
    by (unfold autoItem; by rewrite Hplayer).
  split; [apply last_snoc|].
  rewrite filter_app.
  rewrite (filter_none _ (sort compareItems levelItems)); [done|].
  rewrite sort_Permutation. apply Forall_forall. intros entry Hentry.
  destruct (getLevelItems_entry_bandwidth _ _ _ _ _ Hget Hentry)
    as (level & _ & ->).
  by destruct (bandwidth level).
Qed.

Lemma run_menu_from events this this' :
  run events this = inr (tt, this') →
  localize (player this') = localize (player this)
  ∧ if discovered events
    then ends_with_auto (autoItem this) (createItems (_qualityButton this'))
    else createItems (_qualityButton this') = createItems (_qualityButton this).
Proof.
  revert this. induction events as [|e events IH]; intros this; simpl.
  - by intros [= <-].
  - unfold mbind, M_bind.
    destruct (handle e this) as [|[[] this1]] eqn:Hhandle; [done|].
    intros [Hlocalize Hmenu]%IH.
    assert (autoItem this1 = autoItem this
            ∧ localize (player this1) = localize (player this)
            ∧ match e with
              | addqualitylevel _ =>
                  ends_with_auto (autoItem this)
                    (createItems (_qualityButton this1))
              | _ => createItems (_qualityButton this1)
                     = createItems (_qualityButton this)
              end) as (Hauto & Hlocalize1 & Hmenu1).
    { destruct e as [levels|quality|pl]; simpl in Hhandle.
      - apply onAddQualityLevel_menu in Hhandle as [Hl Hm].
        split_and!; [unfold autoItem; by rewrite Hl|done..].
      - injection Hhandle as <-. unfold setQuality, autoItem.
        by destruct (displayCurrentQuality _).
      - by injection Hhandle as <-. }
    split; [congruence|].
    rewrite Hauto in Hmenu.
    destruct (discovered events); [by rewrite orb_true_r|].
    rewrite orb_false_r, Hmenu. by destruct e.
Qed.

(** The menu of a plugin, from its construction on and through any
    sequence of events: it is empty until the first rendition-discovery
    event, and from then on it always ends with the "Auto" entry, which is
    its only entry of value "auto"; selections and manifest changes never
    touch it. *)
Theorem run_menu player options events this' :
  run events (constructor player options) = inr (tt, this') →
  if discovered events
  then ends_with_auto (autoItem this') (createItems (_qualityButton this'))
  else createItems (_qualityButton this') = [].
Proof.
  intros [Hlocalize Hmenu]%run_menu_from.
  replace (autoItem this') with (autoItem (constructor player options))
    by (unfold autoItem; by rewrite Hlocalize).
  destruct (discovered events); [done|]. rewrite Hmenu.
  unfold constructor, createQualityButton; simpl.
  by destruct (displayCurrentQuality options).
Qed.

Lemma run_menu_witness :
  ∃ this',
    run [addqualitylevel [rendition (Some 960) (Some 540) (Some 1500000)];
         select (VNum 1500000);
         manifest PlaylistsUndefined] sample_plugin
    = inr (tt, this')
    ∧ ends_with_auto (autoItem this') (createItems (_qualityButton this')).
Proof.
  eexists. split; [by vm_compute|].
  apply (run_menu sample_player {| displayCurrentQuality := true |}
           [addqualitylevel [rendition (Some 960) (Some 540) (Some 1500000)];
            select (VNum 1500000);
            manifest PlaylistsUndefined]).
  by vm_compute.
Defined.
